(** * ctyparser: the BigCty dataset and its CTY.DAT importer

    A shallow embedding of [notctyparser/bigcty.py] (class [BigCty]) and the
    properties of its parser, persistence and version accessors.

    Modelling conventions.
    - A Python [str] is a [string]; its characters are the 7-bit ASCII code
      points.  Python's Unicode classes ([str.isalpha], [str.isspace], the
      regex classes [\d] and [\w]) are modelled on that range only; a byte
      above 127 belongs to none of them.
    - A Python [dict] with [str] keys is a [gmap string _]: equality of
      maps is Python's [==] on dicts (insertion order plays no role in it).
    - A raised exception is a value of [exn]; code that may raise returns
      [res].  A method that mutates [self] returns the outcome together with
      the object as the caller sees it afterwards.
    - A [float] is kept as the exact reduced rational its decimal literal
      denotes, or an infinity or NaN; rounding to binary64 is not modelled.
    - An opened text file is the [str] its [read()] returns (universal
      newlines already applied), and a JSON file is the JSON document it
      holds: [json.dump] followed by [json.load] is the identity on
      documents. *)

From Stdlib Require Import ZArith QArith String Ascii List.
From stdpp Require Import gmap strings list fin_maps.

Set Warnings "-register-all".
Open Scope string_scope.
Open Scope Z_scope.

(** ** Characters *)

Module Char.

Definition code (c : ascii) : N := N_of_ascii c.

Definition between (lo hi : N) (c : ascii) : bool :=
  (lo <=? code c)%N && (code c <=? hi)%N.

Definition eqc (a c : ascii) : bool := Ascii.eqb a c.

Definition islower : ascii -> bool := between 97 122.
Definition isupper : ascii -> bool := between 65 90.
Definition isdigit : ascii -> bool := between 48 57.

(** [str.isalpha] on one character. *)
Definition isalpha (c : ascii) : bool := islower c || isupper c.

(** [str.isspace] on one character: TAB, LF, VT, FF, CR, the four
    separators FS, GS, RS, US, and the space. *)
Definition isspace (c : ascii) : bool :=
  between 9 13 c || between 28 32 c.

(** The regex class [\w]. *)
Definition isword (c : ascii) : bool :=
  isalpha c || isdigit c || eqc "_" c.

(** The regex class [[a-zA-Z0-9/]]. *)
Definition isprefixchar (c : ascii) : bool :=
  isalpha c || isdigit c || eqc "/" c.

(** The regex atom [.] (without DOTALL): anything but a line feed. *)
Definition isdot (c : ascii) : bool := negb (eqc "010" c).

Definition lower (c : ascii) : ascii :=
  if isupper c then ascii_of_N (code c + 32) else c.

Definition digit_val (c : ascii) : Z := Z.of_N (code c) - 48.

End Char.

#[global] Arguments Char.eqc : simpl never.
#[global] Arguments Char.between : simpl never.
#[global] Arguments Char.isalpha : simpl never.
#[global] Arguments Char.isspace : simpl never.
#[global] Arguments Char.isdigit : simpl never.

(** ** The [str] methods the parser uses *)

Module Str.

Fixpoint lstrip_by (p : ascii -> bool) (s : string) : string :=
  match s with
  | String c s' => if p c then lstrip_by p s' else s
  | EmptyString => EmptyString
  end.

Fixpoint rstrip_by (p : ascii -> bool) (s : string) : string :=
  match s with
  | String c s' =>
      match rstrip_by p s' with
      | EmptyString => if p c then EmptyString else String c EmptyString
      | r => String c r
      end
  | EmptyString => EmptyString
  end.

(** [s.rstrip(c)], [s.strip(c)] for a one-character argument. *)
Definition rstrip (c : ascii) : string -> string := rstrip_by (Char.eqc c).
Definition strip (c : ascii) (s : string) : string :=
  rstrip_by (Char.eqc c) (lstrip_by (Char.eqc c) s).

(** [s.strip()]: whitespace removed at both ends. *)
Definition strip_ws (s : string) : string :=
  rstrip_by Char.isspace (lstrip_by Char.isspace s).

(** [s.split(sep)] for a one-character separator: never an empty list. *)
Fixpoint split (sep : ascii) (s : string) : list string :=
  match s with
  | String c s' =>
      if Char.eqc sep c then EmptyString :: split sep s'
      else match split sep s' with
           | h :: t => String c h :: t
           | [] => [String c EmptyString]
           end
  | EmptyString => [EmptyString]
  end.

(** [s.startswith(c)] for a one-character argument. *)
Definition startswith (c : ascii) (s : string) : bool :=
  match s with
  | String a _ => Char.eqc c a
  | EmptyString => false
  end.

Definition lower (s : string) : string :=
  String.string_of_list_ascii (map Char.lower (String.list_ascii_of_string s)).

(** The first [n] characters of [s]. *)
Fixpoint take (n : nat) (s : string) : string :=
  match n, s with
  | S n', String c s' => String c (take n' s')
  | _, _ => EmptyString
  end.

(** What was read of [s] when [rest] is what remains of it. *)
Definition consumed (s rest : string) : string :=
  take (String.length s - String.length rest) s.

(** One call of [file.readline()] on the unread text: the line with its
    line feed, and what stays unread.  At the end of the file the line is
    empty. *)
Fixpoint readline (s : string) : string * string :=
  match s with
  | String c s' =>
      if Char.eqc "010" c then (String c EmptyString, s')
      else let '(l, rest) := readline s' in (String c l, rest)
  | EmptyString => (EmptyString, EmptyString)
  end.

(** The successive results of [file.readline()] up to the end of the
    file; every later call returns the empty string. *)
Fixpoint readlines (s : string) : list string :=
  match s with
  | String c s' =>
      if Char.eqc "010" c then String c EmptyString :: readlines s'
      else match readlines s' with
           | h :: t => String c h :: t
           | [] => [String c EmptyString]
           end
  | EmptyString => []
  end.

(** The longest prefix of [s] made of characters in [p]. *)
Fixpoint run (p : ascii -> bool) (s : string) : string :=
  match s with
  | String c s' => if p c then String c (run p s') else EmptyString
  | EmptyString => EmptyString
  end.

(** Whether every character of [s] is in [p]. *)
Fixpoint all (p : ascii -> bool) (s : string) : bool :=
  match s with
  | String c s' => p c && all p s'
  | EmptyString => true
  end.

(** [s.count(c)] for a one-character argument. *)
Fixpoint count (c : ascii) (s : string) : nat :=
  match s with
  | String a s' => if Char.eqc c a then S (count c s') else count c s'
  | EmptyString => O
  end.

End Str.

(** ** A backtracking matcher for the regular expressions of the module

    The patterns of [bigcty.py] (and the one [datetime.strptime] builds for
    ["%Y%m%d"]) use character classes, concatenation, alternation, greedy
    [?], greedy [+] on a character class, and capture groups.  [exec] runs
    them the way Python's [re] does: leftmost alternative first, longest
    repetition first, giving characters back only when what follows
    fails. *)

Module Re.

Inductive t :=
| Eps
| Chr (p : ascii -> bool)
| Seq (r1 r2 : t)
| Alt (r1 r2 : t)
| Opt (r : t)
| Plus (p : ascii -> bool)
| Group (name : string) (r : t).

(** The groups that took part in the match, by name. *)
Abbreviation captures := (gmap string string).

Section Exec.
Context {R : Type}.

(** [p+], then the continuation: the longest run is tried first. *)
Fixpoint plus (p : ascii -> bool) (s : string)
    (k : string -> option R) : option R :=
  match s with
  | String c s' =>
      if p c then
        match plus p s' k with
        | Some x => Some x
        | None => k s'
        end
      else None
  | EmptyString => None
  end.

Fixpoint exec (r : t) (s : string) (g : captures)
    (k : string -> captures -> option R) : option R :=
  match r with
  | Eps => k s g
  | Chr p =>
      match s with
      | String c s' => if p c then k s' g else None
      | EmptyString => None
      end
  | Seq r1 r2 => exec r1 s g (fun s' g' => exec r2 s' g' k)
  | Alt r1 r2 =>
      match exec r1 s g k with
      | Some x => Some x
      | None => exec r2 s g k
      end
  | Opt r1 =>
      match exec r1 s g k with
      | Some x => Some x
      | None => k s g
      end
  | Plus p => plus p s (fun s' => k s' g)
  | Group name r1 =>
      exec r1 s g (fun s' g' => k s' (<[name := Str.consumed s s']> g'))
  end.
End Exec.

(** A match object: the named groups and the unmatched rest of the
    subject. *)
Record result := { groups : captures; rest : string }.

(** [pattern.match(s)]: anchored at the start of [s]. *)
Definition match_ (r : t) (s : string) : option result :=
  exec r s ∅ (fun s' g => Some {| groups := g; rest := s' |}).

(** [re.search(pattern, s)]: the first position of [s], from the left, at
    which the pattern matches. *)
Fixpoint search (r : t) (s : string) : option result :=
  match match_ r s with
  | Some m => Some m
  | None =>
      match s with
      | String _ s' => search r s'
      | EmptyString => None
      end
  end.

(** [m.group(name)]: [None] when the group took no part in the match. *)
Definition group (name : string) (m : result) : option string :=
  groups m !! name.

(** Concatenation and alternation of several patterns, left to right. *)
Definition cat (rs : list t) : t := foldr Seq Eps rs.

Fixpoint alt (rs : list t) : t :=
  match rs with
  | [] => Chr (fun _ => false)
  | [r] => r
  | r :: rs' => Alt r (alt rs')
  end.

Definition chr (c : ascii) : t := Chr (Char.eqc c).
Definition oneof (cs : string) : t :=
  Chr (fun c => existsb (Char.eqc c) (String.list_ascii_of_string cs)).
Definition digit : t := Chr Char.isdigit.
Definition range (lo hi : ascii) : t :=
  Chr (Char.between (Char.code lo) (Char.code hi)).

(** The names of the groups of a pattern. *)
Fixpoint names (r : t) : list string :=
  match r with
  | Eps | Chr _ | Plus _ => []
  | Seq r1 r2 | Alt r1 r2 => names r1 ++ names r2
  | Opt r1 => names r1
  | Group name r1 => name :: names r1
  end.

End Re.

(** ** Python values, exceptions *)

(** The floats of the model: a finite value is the reduced fraction its
    literal denotes. *)
Inductive pyfloat :=
| FNum (q : Q)
| FInf (negative : bool)
| FNan.

(** The values a [cty.json] document and the attributes of a [BigCty]
    hold: what [json.load] can return. *)
Inductive value :=
| VNone
| VBool (b : bool)
| VInt (n : Z)
| VFloat (x : pyfloat)
| VStr (s : string)
| VList (l : list value)
| VDict (d : gmap string value).

Inductive exn :=
| KeyError
| IndexError
| ValueError
| TypeError
| AttributeError.

Inductive res (A : Type) :=
| Ok (a : A)
| Raise (e : exn).
Arguments Ok {A} a.
Arguments Raise {A} e.

#[global] Instance res_ret : MRet res := fun A a => Ok a.
#[global] Instance res_bind : MBind res := fun A B f m =>
  match m with
  | Ok a => f a
  | Raise e => Raise e
  end.

(** [o] when it is there, the exception [e] otherwise. *)
Definition or_raise {A} (e : exn) (o : option A) : res A :=
  match o with
  | Some a => Ok a
  | None => Raise e
  end.

(** ** The conversions [int(s)] and [float(s)] *)

Module Conv.

(** A [digitpart]: digits, single underscores allowed between two of
    them.  The result is the number the digits spell and how many there
    are. *)
Fixpoint digitpart_go (s : string) (after_digit : bool) (acc : Z) (n : nat)
    : option (Z * nat) :=
  match s with
  | String c s' =>
      if Char.isdigit c then
        digitpart_go s' true (10 * acc + Char.digit_val c) (S n)
      else if Char.eqc "_" c && after_digit then
        digitpart_go s' false acc n
      else None
  | EmptyString => if after_digit then Some (acc, n) else None
  end.

Definition digitpart (s : string) : option (Z * nat) :=
  digitpart_go s false 0 O.

(** An optional sign: whether it is a minus, and what follows it. *)
Definition sign (s : string) : bool * string :=
  match s with
  | String c s' =>
      if Char.eqc "-" c then (true, s')
      else if Char.eqc "+" c then (false, s')
      else (false, s)
  | EmptyString => (false, s)
  end.

Definition signed (negative : bool) (n : Z) : Z :=
  if negative then - n else n.

(** [int(s)] in base 10; [None] stands for [ValueError]. *)
Definition int (s : string) : option Z :=
  let '(negative, body) := sign (Str.strip_ws s) in
  match digitpart body with
  | Some (n, _) => Some (signed negative n)
  | None => None
  end.

(** [s] cut at its first character in [p]: what precedes it, and what
    follows it when there is one. *)
Fixpoint cut (p : ascii -> bool) (s : string) : string * option string :=
  match s with
  | String c s' =>
      if p c then (EmptyString, Some s')
      else let '(a, b) := cut p s' in (String c a, b)
  | EmptyString => (EmptyString, None)
  end.

(** The reduced fraction [m * 10 ^ e]. *)
Definition scale10 (m e : Z) : Q :=
  if 0 <=? e then Qmake (m * 10 ^ e) 1
  else Qred (Qmake m (Z.to_pos (10 ^ (- e)))).

(** [number ::= [digitpart] "." digitpart | digitpart ["."]]: the digits
    as one integer, and the number of them after the point. *)
Definition number (s : string) : option (Z * nat) :=
  match cut (Char.eqc ".") s with
  | (ip, None) => match digitpart ip with
                  | Some (n, _) => Some (n, O)
                  | None => None
                  end
  | (ip, Some fp) =>
      match ip, fp with
      | EmptyString, EmptyString => None
      | _, EmptyString =>
          match digitpart ip with
          | Some (n, _) => Some (n, O)
          | None => None
          end
      | EmptyString, _ => digitpart fp
      | _, _ =>
          match digitpart ip, digitpart_go fp false 0 O with
          | Some (n, _), Some (f, k) => Some (n * 10 ^ Z.of_nat k + f, k)
          | _, _ => None
          end
      end
  end.

(** [exponent ::= ("e" | "E") ["+" | "-"] digitpart], after its letter. *)
Definition exponent (s : string) : option Z :=
  let '(negative, body) := sign s in
  match digitpart body with
  | Some (n, _) => Some (signed negative n)
  | None => None
  end.

Definition floatnumber (s : string) : option Q :=
  let '(mant, ex) := cut (fun c => Char.eqc "e" c || Char.eqc "E" c) s in
  match number mant, ex with
  | Some (m, k), None => Some (scale10 m (- Z.of_nat k))
  | Some (m, k), Some x =>
      match exponent x with
      | Some e => Some (scale10 m (e - Z.of_nat k))
      | None => None
      end
  | None, _ => None
  end.

(** [float(s)]: surrounding whitespace is dropped; then an optional sign
    and a decimal number, ["inf"], ["infinity"] or ["nan"] in any case.
    [None] stands for [ValueError]. *)
Definition float (s : string) : option pyfloat :=
  let '(negative, body) := sign (Str.strip_ws s) in
  let word := Str.lower body in
  if String.eqb word "inf" || String.eqb word "infinity"
  then Some (FInf negative)
  else if String.eqb word "nan" then Some FNan
  else match floatnumber body with
       | Some q => Some (FNum (if negative then Qopp q else q))
       | None => None
       end.

(** [-1 * x] on a float. *)
Definition fneg (x : pyfloat) : pyfloat :=
  match x with
  | FNum q => FNum (Qopp q)
  | FInf negative => FInf (negb negative)
  | FNan => FNan
  end.

End Conv.

(** ** [datetime.strptime(s, "%Y%m%d")] and [strftime("%Y-%m-%d")] *)

Module Date.

(** The pattern [strptime] compiles for ["%Y%m%d"]:
    [(?P<Y>\d\d\d\d)(?P<m>1[0-2]|0[1-9]|[1-9])]
    [(?P<d>3[0-1]|[1-2]\d|0[1-9]|[1-9]| [1-9])]. *)
Definition format_regex : Re.t :=
  Re.cat
    [ Re.Group "Y" (Re.cat [Re.digit; Re.digit; Re.digit; Re.digit]);
      Re.Group "m"
        (Re.alt [ Re.cat [Re.chr "1"; Re.range "0" "2"];
                  Re.cat [Re.chr "0"; Re.range "1" "9"];
                  Re.range "1" "9" ]);
      Re.Group "d"
        (Re.alt [ Re.cat [Re.chr "3"; Re.range "0" "1"];
                  Re.cat [Re.range "1" "2"; Re.digit];
                  Re.cat [Re.chr "0"; Re.range "1" "9"];
                  Re.range "1" "9";
                  Re.cat [Re.chr " "; Re.range "1" "9"] ]) ].

Definition is_leap (y : Z) : bool :=
  (y mod 4 =? 0) && (negb (y mod 100 =? 0) || (y mod 400 =? 0)).

Definition days_in_month (y m : Z) : Z :=
  if m =? 2 then (if is_leap y then 29 else 28)
  else if (m =? 4) || (m =? 6) || (m =? 9) || (m =? 11) then 30
  else 31.

(** What the [date] constructor accepts. *)
Definition valid (y m d : Z) : bool :=
  (1 <=? y) && (y <=? 9999) && (1 <=? m) && (m <=? 12)
  && (1 <=? d) && (d <=? days_in_month y m).

(** [datetime.strptime(s, "%Y%m%d")] on a [str]; [None] stands for
    [ValueError] (no match, unconverted data, or no such day). *)
Definition strptime (s : string) : option (Z * Z * Z) :=
  match Re.match_ format_regex s with
  | Some m =>
      match Re.rest m with
      | EmptyString =>
          match Re.group "Y" m ≫= Conv.int, Re.group "m" m ≫= Conv.int,
                Re.group "d" m ≫= Conv.int with
          | Some y, Some mo, Some d =>
              if valid y mo d then Some (y, mo, d) else None
          | _, _, _ => None
          end
      | String _ _ => None
      end
  | None => None
  end.

Definition digit (n : Z) : ascii := ascii_of_N (Z.to_N (n mod 10) + 48).

Definition two (n : Z) : string :=
  String (digit (n / 10)) (String (digit n) EmptyString).

(** What [%Y] writes: the year in decimal, without leading zeros.  The
    directive is handed to the C library, which does not pad: the year 123
    is written [123], and only the years from 1000 on have four digits. *)
Definition year (y : Z) : string :=
  if y <? 10 then String (digit y) EmptyString
  else if y <? 100 then two y
  else if y <? 1000 then String (digit (y / 100)) (two y)
  else two (y / 100) +:+ two y.

(** [strftime("%Y-%m-%d")]; [%m] and [%d] are always two digits. *)
Definition strftime (date : Z * Z * Z) : string :=
  let '(y, m, d) := date in
  year y +:+ "-" +:+ two m +:+ "-" +:+ two d.

(** The version stamp [YYYYMMDD] of a date, as the marker of a table
    carries it: the year on four digits, month and day on two. *)
Definition stamp (date : Z * Z * Z) : string :=
  let '(y, m, d) := date in
  two (y / 100) +:+ two y +:+ two m +:+ two d.

End Date.

(** ** The class [BigCty] *)

(** One entry of the prefix mapping: the [dict] with the keys ["entity"],
    ["cq"], ["itu"], ["continent"], ["lat"], ["long"], ["tz"], ["len"],
    ["primary_pfx"] and ["exact_match"]. *)
Abbreviation record := (gmap string value).

Record BigCty := {
  _data : gmap string value;
  _version : value
}.

(** [regex_version_entry = re.compile(r"VER(\d{8})")]. *)
Definition regex_version_entry : Re.t :=
  Re.cat
    [ Re.chr "V"; Re.chr "E"; Re.chr "R";
      Re.Group "1"
        (Re.cat [ Re.digit; Re.digit; Re.digit; Re.digit;
                  Re.digit; Re.digit; Re.digit; Re.digit ]) ].

(** [[+-]?\d+(?:\.\d+)?], the number of the [lat] and [tz] groups. *)
Definition regex_number : Re.t :=
  Re.cat [ Re.Opt (Re.oneof "+-"); Re.Plus Char.isdigit;
           Re.Opt (Re.cat [Re.chr "."; Re.Plus Char.isdigit]) ].

(** [[+-]?\d+(?:.\d+)?], the number of the [long] group: its point is not
    escaped in the source and stands for any character. *)
Definition regex_number_anydot : Re.t :=
  Re.cat [ Re.Opt (Re.oneof "+-"); Re.Plus Char.isdigit;
           Re.Opt (Re.cat [Re.Chr Char.isdot; Re.Plus Char.isdigit]) ].

(** [regex_dat], group by group as the source writes it (verbose mode). *)
Definition regex_dat : Re.t :=
  Re.cat
    [ Re.Opt (Re.chr "=");
      Re.Group "prefix" (Re.Plus Char.isprefixchar);
      Re.Opt (Re.cat [Re.chr "("; Re.Group "cq" (Re.Plus Char.isdigit); Re.chr ")"]);
      Re.Opt (Re.cat [Re.chr "["; Re.Group "itu" (Re.Plus Char.isdigit); Re.chr "]"]);
      Re.Opt (Re.Group "latlong"
                (Re.cat [ Re.chr "<"; Re.Group "lat" regex_number;
                          Re.chr "/";
                          Re.Group "long" regex_number_anydot; Re.chr ">" ]));
      Re.Opt (Re.cat [Re.chr "{"; Re.Group "continent" (Re.Plus Char.isword); Re.chr "}"]);
      Re.Opt (Re.cat [Re.chr "~"; Re.Group "tz" regex_number; Re.chr "~"]) ].

(** [__init__] without a file: no data, the empty version stamp. *)
Definition init : BigCty := {| _data := ∅; _version := VStr "" |}.

Definition int (s : string) : res Z := or_raise ValueError (Conv.int s).
Definition float (s : string) : res pyfloat := or_raise ValueError (Conv.float s).

(** *** [import_dat] *)

(** The line as the loop sees it:
    [file.readline().rstrip("\r").strip(":")]. *)
Definition clean (raw : string) : string :=
  Str.strip ":" (Str.rstrip "013" raw).

(** The [dict] literal of the header branch, as a function of the values
    its expressions take. *)
Definition header_record (entity : string) (cq itu : Z) (continent : string)
    (lat long tz : pyfloat) (prefix : string) : record :=
  {[ "entity" := VStr entity;
     "cq" := VInt cq;
     "itu" := VInt itu;
     "continent" := VStr continent;
     "lat" := VFloat lat;
     "long" := VFloat long;
     "tz" := VFloat (Conv.fneg tz);
     "len" := VInt (Z.of_nat (String.length prefix));
     "primary_pfx" := VStr prefix;
     "exact_match" := VBool false ]}.

(** The branch [line[0].isalpha()]: the line introduces an entity.  The
    result is the mapping with the new record, and the new [last]. *)
Definition header (line : string) (cty_dict : gmap string record)
    : res (gmap string record * string) :=
  let segments := map Str.strip_ws (Str.split ":" line) in
  match segments with
  | s0 :: s1 :: s2 :: s3 :: s4 :: s5 :: s6 :: s7 :: _ =>
      match s7 with
      | EmptyString => Raise IndexError          (* segments[7][0] *)
      | String c tail =>
          let not_dxcc := Char.eqc "*" c in
          let s7 := if not_dxcc then tail else s7 in
          let s0 := if not_dxcc then s0 +:+ " (not DXCC)" else s0 in
          cq ← int s1;
          itu ← int s2;
          lat ← float s4;
          long ← float s5;
          tz ← float s6;
          Ok (<[s7 := header_record s0 cq itu s3 lat long tz s7]> cty_dict,
              s7)
      end
  | _ => Raise IndexError                        (* segments[7] *)
  end.

(** [if match.group(name): data = f(match.group(name), data)]: a group
    that took no part in the match, or is empty, leaves [data] alone. *)
Definition if_group (name : string) (m : Re.result) (data : record)
    (f : string -> res record) : res record :=
  match Re.group name m with
  | Some (String c s) => f (String c s)
  | _ => Ok data
  end.

(** The assignments the match of one override token makes to the copy
    [data] of the primary record, in the order of the source. *)
Definition apply_match (m : Re.result) (item : string) (data : record)
    : res record :=
  data ← if_group "itu" m data
            (fun g => n ← int g; Ok (<["itu" := VInt n]> data));
  data ← if_group "cq" m data
            (fun g => n ← int g; Ok (<["cq" := VInt n]> data));
  data ← if_group "latlong" m data
            (fun _ =>
               lat ← or_raise TypeError (Re.group "lat" m) ≫= float;
               long ← or_raise TypeError (Re.group "long" m) ≫= float;
               Ok (<["long" := VFloat long]> (<["lat" := VFloat lat]> data)));
  data ← if_group "continent" m data
            (fun g => Ok (<["continent" := VStr g]> data));
  data ← if_group "tz" m data
            (fun g => x ← float g; Ok (<["tz" := VFloat (Conv.fneg x)]> data));
  Ok (if Str.startswith "=" item
      then <["exact_match" := VBool true]> data
      else data).

(** The body of [for item in overrides]: one override token.  The token
    text itself is looked up in the mapping; the record is stored under the
    prefix the regex extracts from it. *)
Definition override (item last : string) (cty_dict : gmap string record)
    : res (gmap string record) :=
  match cty_dict !! item with
  | Some _ => Ok cty_dict                        (* item in cty_dict *)
  | None =>
      data ← or_raise KeyError (cty_dict !! last);
      match Re.search regex_dat item with
      | None => Ok cty_dict                      (* continue *)
      | Some m =>
          data ← apply_match m item data;
          prefix ← or_raise IndexError (Re.group "prefix" m);
          Ok (<[prefix := data]> cty_dict)
      end
  end.

Fixpoint overrides_loop (overrides : list string) (last : string)
    (cty_dict : gmap string record) : res (gmap string record) :=
  match overrides with
  | [] => Ok cty_dict
  | item :: rest =>
      cty_dict ← override item last cty_dict;
      overrides_loop rest last cty_dict
  end.

(** The branch [line[0].isspace()]: the line continues an entity. *)
Definition continuation (line last : string) (cty_dict : gmap string record)
    : res (gmap string record) :=
  let overrides :=
    Str.split "," (Str.rstrip "," (Str.rstrip ";" (Str.strip_ws line))) in
  overrides_loop overrides last cty_dict.

(** The [while True] loop over the lines [readline()] returns, with the
    local variables [cty_dict] and [last].  An empty line (the end of the
    file, or a line of colons only) leaves the loop; a line that starts
    with neither a letter nor whitespace takes neither branch. *)
Fixpoint scan (lines : list string) (cty_dict : gmap string record)
    (last : string) : res (gmap string record) :=
  match lines with
  | [] => Ok cty_dict
  | raw :: rest =>
      match clean raw with
      | EmptyString => Ok cty_dict
      | String c _ as line =>
          if Char.isalpha c then
            '(cty_dict, last) ← header line cty_dict;
            scan rest cty_dict last
          else if Char.isspace c then
            cty_dict ← continuation line last cty_dict;
            scan rest cty_dict last
          else scan rest cty_dict last
      end
  end.

(** [re.search(self.regex_version_entry, file.read())], then
    [ver_match.group(1) if ver_match is not None else ""]. *)
Definition find_version (text : string) : string :=
  match Re.search regex_version_entry text with
  | Some m => default EmptyString (Re.group "1" m)
  | None => EmptyString
  end.

(** [import_dat] on a file whose text is [text]: the outcome, and [self]
    afterwards.  [self._version] is assigned before the lines are scanned,
    [self._data] after the loop. *)
Definition import_dat (text : string) (self : BigCty) : res unit * BigCty :=
  let self := {| _data := _data self; _version := VStr (find_version text) |} in
  match scan (Str.readlines text) ∅ EmptyString with
  | Ok cty_dict =>
      (Ok tt, {| _data := VDict <$> cty_dict; _version := _version self |})
  | Raise e => (Raise e, self)
  end.

(** *** [load] and [dump] *)

(** [dump]: the JSON document written, a copy of the data with the key
    ["version"] set to the version stamp. *)
Definition dump (self : BigCty) : value :=
  VDict (<["version" := _version self]> (_data self)).

(** [load] on a file holding the JSON document [ctyjson]:
    [self._version = ctyjson.pop("version", None)], the rest is the data.
    A document that is not an object has no such [pop]. *)
Definition load (ctyjson : value) (self : BigCty) : res unit * BigCty :=
  match ctyjson with
  | VDict d =>
      (Ok tt, {| _data := delete "version" d;
                 _version := default VNone (d !! "version") |})
  | VList _ => (Raise TypeError, self)
  | _ => (Raise AttributeError, self)
  end.

(** *** The properties [version] and [formatted_version] *)

Definition version (self : BigCty) : value := _version self.

(** [formatted_version]: [strptime] raises [TypeError] on anything but a
    [str]; only [ValueError] is caught. *)
Definition formatted_version (self : BigCty) : res string :=
  match _version self with
  | VStr s =>
      match Date.strptime s with
      | Some date => Ok (Date.strftime date)
      | None => Ok "0000-00-00"
      end
  | _ => Raise TypeError
  end.

(** *** Reading the result *)

(** [self[key][field]]. *)
Definition field (self : BigCty) (key name : string) : option value :=
  match _data self !! key with
  | Some (VDict r) => r !! name
  | _ => None
  end.

(** [__getitem__] and [__len__]: those of the underlying [dict]. *)
Definition getitem (self : BigCty) (key : string) : res value :=
  or_raise KeyError (_data self !! key).

Definition len (self : BigCty) : nat := size (_data self).

(** How the loop treats a line read from the file, as a function of the
    first character left after [clean]. *)
Inductive kind := Blank | Header | Continuation | Other.

Definition line_kind (raw : string) : kind :=
  match clean raw with
  | EmptyString => Blank
  | String c _ =>
      if Char.isalpha c then Header
      else if Char.isspace c then Continuation
      else Other
  end.

(** The keys of the record the groups of a match may assign. *)
Definition match_keys : list string :=
  ["itu"; "cq"; "lat"; "long"; "continent"; "tz"].

(** Whether some character of [s] is in [p]. *)
Definition has_char (p : ascii -> bool) (s : string) : bool :=
  existsb p (String.list_ascii_of_string s).

(** The invariant of the scan: every record names a primary prefix that is
    a key of the mapping, and its [len] is the length of that prefix. *)
Definition well_formed (cty_dict : gmap string record) : Prop :=
  forall key r,
    cty_dict !! key = Some r ->
    exists p,
      r !! "primary_pfx" = Some (VStr p) /\
      r !! "len" = Some (VInt (Z.of_nat (String.length p))) /\
      is_Some (cty_dict !! p).

(** The part of [Date.format_regex] after the year: the groups [m] and
    [d]. *)
Definition month_day_regex : Re.t :=
  Re.cat
    [ Re.Group "m"
        (Re.alt [ Re.cat [Re.chr "1"; Re.range "0" "2"];
                  Re.cat [Re.chr "0"; Re.range "1" "9"];
                  Re.range "1" "9" ]);
      Re.Group "d"
        (Re.alt [ Re.cat [Re.chr "3"; Re.range "0" "1"];
                  Re.cat [Re.range "1" "2"; Re.digit];
                  Re.cat [Re.chr "0"; Re.range "1" "9"];
                  Re.range "1" "9";
                  Re.cat [Re.chr " "; Re.range "1" "9"] ]) ].

(** The optional groups of [regex_dat], in the order of the source. *)
Definition dat_optional : list Re.t :=
  [ Re.cat [Re.chr "("; Re.Group "cq" (Re.Plus Char.isdigit); Re.chr ")"];
    Re.cat [Re.chr "["; Re.Group "itu" (Re.Plus Char.isdigit); Re.chr "]"];
    Re.Group "latlong"
      (Re.cat [ Re.chr "<"; Re.Group "lat" regex_number;
                Re.chr "/";
                Re.Group "long" regex_number_anydot; Re.chr ">" ]);
    Re.cat [Re.chr "{"; Re.Group "continent" (Re.Plus Char.isword); Re.chr "}"];
    Re.cat [Re.chr "~"; Re.Group "tz" regex_number; Re.chr "~"] ].

(** The first maximal run of characters of [p] in [s]. *)
Definition first_run (p : ascii -> bool) (s : string) : string :=
  Str.run p (Str.lstrip_by (fun c => negb (p c)) s).

(** The Python types of the fields of a record. *)
Inductive ty := TStr | TInt | TFloat | TBool.

Definition has_type (v : value) (t : ty) : bool :=
  match v, t with
  | VStr _, TStr | VInt _, TInt | VFloat _, TFloat | VBool _, TBool => true
  | _, _ => false
  end.

(** The keys of the [dict] literal of the header branch, each with the
    type of the value the literal gives it. *)
Definition schema : gmap string ty :=
  {[ "entity" := TStr;
     "cq" := TInt;
     "itu" := TInt;
     "continent" := TStr;
     "lat" := TFloat;
     "long" := TFloat;
     "tz" := TFloat;
     "len" := TInt;
     "primary_pfx" := TStr;
     "exact_match" := TBool ]}.

(** [r] has the keys of [s], with values of the types [s] gives. *)
Definition conforms (s : gmap string ty) (r : record) : Prop :=
  forall k,
    match s !! k, r !! k with
    | Some t, Some v => has_type v t = true
    | None, None => True
    | _, _ => False
    end.

(** ** Sample tables *)

Definition nl : string := String "010" EmptyString.

(** The header and continuation of the override example of the
    specification. *)
Definition sample_header : string := "Test:1:2:NA:10.0:20.0:-5.0:XX:".
Definition sample_table : string :=
  sample_header +:+ nl +:+ "  XXA,XXB(3);" +:+ nl.

(** The record and the mapping the header of the example builds. *)
Definition sample_primary : record :=
  header_record "Test" 1 2 "NA" (FNum 10) (FNum 20) (FNum (-5)) "XX".
Definition sample_dict : gmap string record := {[ "XX" := sample_primary ]}.

(** The same entity with one prefix listed twice, with different zones. *)
Definition twice_table : string :=
  sample_header +:+ nl +:+ "  XXA(3),XXA(4);" +:+ nl.


(** A table whose first line is a continuation line. *)
Definition orphan_table : string := "  !!;" +:+ nl.

(** A table with a line that starts with neither a letter nor
    whitespace. *)
Definition comment_table : string := "#!" +:+ nl +:+ sample_header +:+ nl.

(** A table with a version marker and a header line that has too few
    fields. *)
Definition broken_table : string := "Bad:VER20230615" +:+ nl.

(** A table with a version marker in a line the scan skips. *)
Definition dated_table : string :=
  "# VER20230615, Version entity" +:+ nl +:+ sample_header +:+ nl.

(** A table whose entity has the primary prefix ["version"]. *)
Definition version_table : string :=
  "Test:1:2:NA:10.0:20.0:-5.0:version:" +:+ nl.

(** * Properties *)

(** ** The error monad *)

Lemma bind_Ok {A B} (m : res A) (f : A -> res B) (b : B) :
  m ≫= f = Ok b -> exists a, m = Ok a /\ f a = Ok b.
Proof. destruct m as [a|e]; simpl; [eauto | discriminate]. Qed.

Lemma or_raise_Ok {A} (e : exn) (o : option A) (a : A) :
  or_raise e o = Ok a -> o = Some a.
Proof. destruct o; simpl; congruence. Qed.

(** ** Strings and lines *)

Lemma split_nonempty (sep : ascii) (s : string) : Str.split sep s <> [].
Proof.
  induction s as [|c s IH]; simpl; [discriminate|].
  destruct (Char.eqc sep c); [discriminate|].
  destruct (Str.split sep s); discriminate.
Qed.

(** [readlines] lists what successive calls of [readline] return. *)
Lemma readlines_readline (s : string) :
  s <> EmptyString ->
  Str.readlines s = fst (Str.readline s) :: Str.readlines (snd (Str.readline s)).
Proof.
  induction s as [|c s IH]; intros Hs; [congruence|]; simpl.
  destruct (Char.eqc "010" c); [reflexivity|].
  destruct s as [|c' s'].
  - reflexivity.
  - rewrite IH by discriminate.
    destruct (Str.readline (String c' s')) as [l r]; reflexivity.
Qed.


(** ** The matcher *)

(** A successful [plus] ends in a successful continuation. *)
Lemma plus_inv {R} (p : ascii -> bool) (s : string) (k : string -> option R)
    (x : R) :
  Re.plus p s k = Some x -> exists s', k s' = Some x.
Proof.
  induction s as [|c s IH]; simpl; [discriminate|].
  destruct (p c); [|discriminate].
  destruct (Re.plus p s k) eqn:E; intros H.
  - inversion H; subst. auto.
  - eauto.
Qed.

(** A successful [exec] ends in a successful continuation, and the groups
    recorded before it are still recorded there. *)
Lemma exec_inv {R} (r : Re.t) :
  forall (s : string) (g : Re.captures)
         (k : string -> Re.captures -> option R) (x : R),
    Re.exec r s g k = Some x ->
    exists s' g', k s' g' = Some x /\
                  forall n, is_Some (g !! n) -> is_Some (g' !! n).
Proof.
  induction r as [|p|r1 IH1 r2 IH2|r1 IH1 r2 IH2|r1 IH1|p|name r1 IH1];
    intros s g k x H; simpl in H.
  - eauto.
  - destruct s as [|c s]; [discriminate|].
    destruct (p c); [eauto|discriminate].
  - apply IH1 in H as (s1 & g1 & H & Hg1).
    apply IH2 in H as (s2 & g2 & H & Hg2). eauto 6.
  - destruct (Re.exec r1 s g k) eqn:E.
    + inversion H; subst. eauto.
    + eauto.
  - destruct (Re.exec r1 s g k) eqn:E.
    + inversion H; subst. eauto.
    + eauto.
  - apply plus_inv in H as (s' & H). eauto.
  - apply IH1 in H as (s1 & g1 & H & Hg1).
    exists s1, (<[name := Str.consumed s s1]> g1). split; [exact H|].
    intros n Hn. rewrite lookup_insert_is_Some'. auto.
Qed.

Lemma search_inv (r : Re.t) (s : string) (m : Re.result) :
  Re.search r s = Some m -> exists s', Re.match_ r s' = Some m.
Proof.
  induction s as [|c s IH]; simpl.
  - destruct (Re.match_ r EmptyString) eqn:E; [|discriminate].
    intros H; inversion H; subst. eauto.
  - destruct (Re.match_ r (String c s)) eqn:E.
    + intros H; inversion H; subst. eauto.
    + auto.
Qed.

(** In [r0 (?P<name>r1) rest], the group [name] takes part in every
    match. *)
Lemma exec_group_recorded {R} (r0 r1 rest : Re.t) (name : string)
    (s : string) (g : Re.captures) (k : string -> Re.captures -> option R)
    (x : R) :
  Re.exec (Re.Seq r0 (Re.Seq (Re.Group name r1) rest)) s g k = Some x ->
  exists s' g', k s' g' = Some x /\ is_Some (g' !! name).
Proof.
  intros H. simpl in H.
  apply exec_inv in H as (s1 & g1 & H & _).
  apply exec_inv in H as (s2 & g2 & H & _).
  apply exec_inv in H as (s3 & g3 & H & Hg).
  exists s3, g3. split; [exact H|].
  apply Hg. rewrite lookup_insert_eq. eauto.
Qed.

(** Every match of [regex_dat] has its [prefix] group: the lookup of that
    group in [override] never fails. *)
Lemma regex_dat_prefix (item : string) (m : Re.result) :
  Re.search regex_dat item = Some m -> is_Some (Re.group "prefix" m).
Proof.
  intros H. apply search_inv in H as (s & H).
  unfold Re.match_ in H.
  apply (exec_group_recorded (Re.Opt (Re.chr "="))) in H as (s' & g' & H & Hg).
  inversion H; subst. exact Hg.
Qed.

(** ** One override token *)

Lemma if_group_inv (name : string) (m : Re.result) (data : record)
    (f : string -> res record) (data' : record) :
  if_group name m data f = Ok data' ->
  data' = data \/ exists g, f g = Ok data'.
Proof.
  unfold if_group. destruct (Re.group name m) as [[|c g]|]; intros H.
  - left; congruence.
  - right; eauto.
  - left; congruence.
Qed.

Ltac ok_inv H :=
  repeat match type of H with
         | _ ≫= _ = Ok _ =>
             let H' := fresh "Hv" in apply bind_Ok in H as (? & H' & H)
         | Ok _ = Ok _ => inversion H; subst; clear H
         end.

Ltac not_a_match_key :=
  unfold match_keys; rewrite !not_elem_of_cons;
  repeat split; try discriminate; apply not_elem_of_nil.

Ltac frame_step H :=
  let g := fresh "g" in
  apply if_group_inv in H as [->|[g H]];
  [ reflexivity
  | ok_inv H; rewrite !lookup_insert_ne by assumption; reflexivity ].

(** The assignments of the match groups leave every other key of the
    record alone. *)
Lemma match_groups_frame (m : Re.result) (item : string)
    (data data' : record) (k : string) :
  apply_match m item data = Ok data' ->
  k ∉ "exact_match" :: match_keys ->
  data' !! k = data !! k.
Proof.
  intros H Hk. unfold apply_match in H.
  assert (Hne : forall k', k' ∈ "exact_match" :: match_keys -> k' <> k)
    by (intros k' Hk' ->; contradiction).
  unfold match_keys in Hne.
  assert (H1 : "itu" <> k) by (apply Hne; repeat constructor).
  assert (H2 : "cq" <> k) by (apply Hne; repeat constructor).
  assert (H3 : "lat" <> k) by (apply Hne; repeat constructor).
  assert (H4 : "long" <> k) by (apply Hne; repeat constructor).
  assert (H5 : "continent" <> k) by (apply Hne; repeat constructor).
  assert (H6 : "tz" <> k) by (apply Hne; repeat constructor).
  assert (H7 : "exact_match" <> k) by (apply Hne; repeat constructor).
  clear Hne Hk.
  apply bind_Ok in H as (d1 & S1 & H). apply bind_Ok in H as (d2 & S2 & H).
  apply bind_Ok in H as (d3 & S3 & H). apply bind_Ok in H as (d4 & S4 & H).
  apply bind_Ok in H as (d5 & S5 & H). inversion H; subst; clear H.
  transitivity (d5 !! k).
  { destruct (Str.startswith "=" item); [|reflexivity].
    apply lookup_insert_ne, H7. }
  transitivity (d4 !! k); [frame_step S5|].
  transitivity (d3 !! k); [frame_step S4|].
  transitivity (d2 !! k); [frame_step S3|].
  transitivity (d1 !! k); [frame_step S2|].
  frame_step S1.
Qed.

(** The flag [exact_match] after the assignments: set when the token text
    starts with [=], inherited otherwise. *)
Lemma apply_match_exact (m : Re.result) (item : string)
    (data data' : record) :
  apply_match m item data = Ok data' ->
  data' !! "exact_match" =
    if Str.startswith "=" item then Some (VBool true)
    else data !! "exact_match".
Proof.
  intros H. unfold apply_match in H.
  assert (H1 : "itu" <> "exact_match") by discriminate.
  assert (H2 : "cq" <> "exact_match") by discriminate.
  assert (H3 : "lat" <> "exact_match") by discriminate.
  assert (H4 : "long" <> "exact_match") by discriminate.
  assert (H5 : "continent" <> "exact_match") by discriminate.
  assert (H6 : "tz" <> "exact_match") by discriminate.
  apply bind_Ok in H as (d1 & S1 & H). apply bind_Ok in H as (d2 & S2 & H).
  apply bind_Ok in H as (d3 & S3 & H). apply bind_Ok in H as (d4 & S4 & H).
  apply bind_Ok in H as (d5 & S5 & H). inversion H; subst; clear H.
  destruct (Str.startswith "=" item); [apply lookup_insert_eq|].
  transitivity (d4 !! "exact_match"); [frame_step S5|].
  transitivity (d3 !! "exact_match"); [frame_step S4|].
  transitivity (d2 !! "exact_match"); [frame_step S3|].
  transitivity (d1 !! "exact_match"); [frame_step S2|].
  frame_step S1.
Qed.

(** What [override] does to the mapping: nothing, or one record stored
    under the prefix the regex extracted, made from a copy of the record
    of [last]. *)
Lemma override_inv (item last : string) (cty_dict d' : gmap string record) :
  override item last cty_dict = Ok d' ->
  d' = cty_dict \/
  exists m prefix prim data,
    cty_dict !! item = None /\
    cty_dict !! last = Some prim /\
    Re.search regex_dat item = Some m /\
    Re.group "prefix" m = Some prefix /\
    apply_match m item prim = Ok data /\
    d' = <[prefix := data]> cty_dict.
Proof.
  unfold override. destruct (cty_dict !! item) eqn:Hi; intros H.
  - left; congruence.
  - apply bind_Ok in H as (prim & Hp & H). apply or_raise_Ok in Hp.
    destruct (Re.search regex_dat item) as [m|] eqn:Hm.
    + apply bind_Ok in H as (data & Hd & H).
      apply bind_Ok in H as (prefix & Hpre & H). apply or_raise_Ok in Hpre.
      inversion H; subst. right. exists m, prefix, prim, data. auto 10.
    + left; congruence.
Qed.

(** ** One header line *)

(** A header line that is accepted stores one record, built by the [dict]
    literal, under the prefix that becomes [last]. *)
Lemma header_inv (line : string) (cty_dict d' : gmap string record)
    (last : string) :
  header line cty_dict = Ok (d', last) ->
  exists entity cq itu continent lat long tz,
    d' = <[last := header_record entity cq itu continent lat long tz last]>
           cty_dict.
Proof.
  unfold header.
  destruct (map Str.strip_ws (Str.split ":" line))
    as [|s0 [|s1 [|s2 [|s3 [|s4 [|s5 [|s6 [|s7 segs]]]]]]]];
    try discriminate.
  destruct s7 as [|c tail]; [discriminate|].
  cbv zeta. intros H.
  apply bind_Ok in H as (cq & _ & H). apply bind_Ok in H as (itu & _ & H).
  apply bind_Ok in H as (lat & _ & H). apply bind_Ok in H as (long & _ & H).
  apply bind_Ok in H as (tz & _ & H). inversion H; subst. eauto 10.
Qed.

Lemma header_record_primary_pfx entity cq itu continent lat long tz prefix :
  header_record entity cq itu continent lat long tz prefix !! "primary_pfx"
  = Some (VStr prefix).
Proof. reflexivity. Qed.

Lemma header_record_len entity cq itu continent lat long tz prefix :
  header_record entity cq itu continent lat long tz prefix !! "len"
  = Some (VInt (Z.of_nat (String.length prefix))).
Proof. reflexivity. Qed.

Lemma header_record_exact_match entity cq itu continent lat long tz prefix :
  header_record entity cq itu continent lat long tz prefix !! "exact_match"
  = Some (VBool false).
Proof. reflexivity. Qed.

(** ** The scan *)

Lemma scan_cons (raw : string) (rest : list string)
    (cty_dict : gmap string record) (last : string) :
  scan (raw :: rest) cty_dict last =
    match clean raw with
    | EmptyString => Ok cty_dict
    | String c _ as line =>
        if Char.isalpha c then
          header line cty_dict ≫= (fun '(d, l) => scan rest d l)
        else if Char.isspace c then
          continuation line last cty_dict ≫= (fun d => scan rest d last)
        else scan rest cty_dict last
    end.
Proof. reflexivity. Qed.

(** A line that is neither blank, header nor continuation changes neither
    [cty_dict] nor [last]. *)
Lemma scan_other (raw : string) (rest : list string)
    (cty_dict : gmap string record) (last : string) :
  line_kind raw = Other ->
  scan (raw :: rest) cty_dict last = scan rest cty_dict last.
Proof.
  unfold line_kind. rewrite scan_cons.
  destruct (clean raw) as [|c s]; [discriminate|].
  destruct (Char.isalpha c); [discriminate|].
  destruct (Char.isspace c); [discriminate|]. reflexivity.
Qed.

Lemma scan_skip (skipped rest : list string)
    (cty_dict : gmap string record) (last : string) :
  Forall (fun raw => line_kind raw = Other) skipped ->
  scan (skipped ++ rest)%list cty_dict last = scan rest cty_dict last.
Proof.
  induction 1 as [|raw skipped Hraw _ IH]; [reflexivity|].
  simpl app. rewrite scan_other by exact Hraw. exact IH.
Qed.

(** A continuation line met while [last] has no record raises [KeyError]
    at its first token that is not a key. *)
Lemma overrides_loop_no_primary (overrides : list string) (last : string)
    (cty_dict : gmap string record) :
  cty_dict !! last = None ->
  Exists (fun item => cty_dict !! item = None) overrides ->
  overrides_loop overrides last cty_dict = Raise KeyError.
Proof.
  intros Hlast. induction 1 as [item rest Hitem|item rest _ IH]; simpl.
  - unfold override. rewrite Hitem, Hlast. reflexivity.
  - unfold override. destruct (cty_dict !! item) eqn:Hitem.
    + simpl. exact IH.
    + rewrite Hlast. reflexivity.
Qed.

Lemma continuation_before_header (line : string) :
  continuation line EmptyString ∅ = Raise KeyError.
Proof.
  unfold continuation.
  apply overrides_loop_no_primary; [apply lookup_empty|].
  destruct (Str.split "," (Str.rstrip "," (Str.rstrip ";" (Str.strip_ws line))))
    as [|item rest] eqn:E.
  - exfalso. exact (split_nonempty _ _ E).
  - apply Exists_cons_hd, lookup_empty.
Qed.

(** ** Which tokens the override grammar matches *)

Lemma plus_head_None {R} (p : ascii -> bool) (s : string)
    (k : string -> option R) :
  match s with String c _ => p c = false | EmptyString => True end ->
  Re.plus p s k = None.
Proof. destruct s as [|c s]; simpl; [reflexivity|]. intros ->. reflexivity. Qed.

(** [=?(?P<name>p+)rest] does not match at the start of a string without
    any character of [p], provided [=] is not in [p]. *)
Lemma exec_opt_plus_None {R} (p : ascii -> bool) (name : string)
    (rest : Re.t) (s : string) (g : Re.captures)
    (k : string -> Re.captures -> option R) :
  has_char p s = false ->
  Re.exec (Re.Seq (Re.Opt (Re.chr "=")) (Re.Seq (Re.Group name (Re.Plus p)) rest))
    s g k = None.
Proof.
  unfold has_char. intros H. simpl.
  destruct s as [|c s]; [reflexivity|].
  simpl in H. apply orb_false_iff in H as [Hc Hs].
  rewrite (plus_head_None p (String c s)) by exact Hc.
  destruct (Re.chr "=") eqn:E; try discriminate.
  unfold Re.chr in E. inversion E; subst.
  destruct (Char.eqc "=" c); [|reflexivity].
  rewrite plus_head_None; [reflexivity|].
  destruct s as [|c' s']; [exact I|].
  simpl in Hs. apply orb_false_iff in Hs as [Hc' _]. exact Hc'.
Qed.

Lemma has_char_tail (p : ascii -> bool) (c : ascii) (s : string) :
  has_char p (String c s) = false -> has_char p s = false.
Proof. unfold has_char; simpl. intros H. apply orb_false_iff in H as [_ H]. exact H. Qed.

(** [regex_dat] is [=?], the group [prefix], then optional groups only. *)
Lemma regex_dat_shape :
  regex_dat =
    Re.Seq (Re.Opt (Re.chr "="))
      (Re.Seq (Re.Group "prefix" (Re.Plus Char.isprefixchar))
         (Re.cat (map Re.Opt
            [ Re.cat [Re.chr "("; Re.Group "cq" (Re.Plus Char.isdigit); Re.chr ")"];
              Re.cat [Re.chr "["; Re.Group "itu" (Re.Plus Char.isdigit); Re.chr "]"];
              Re.Group "latlong"
                (Re.cat [ Re.chr "<"; Re.Group "lat" regex_number;
                          Re.chr "/";
                          Re.Group "long" regex_number_anydot; Re.chr ">" ]);
              Re.cat [Re.chr "{"; Re.Group "continent" (Re.Plus Char.isword); Re.chr "}"];
              Re.cat [Re.chr "~"; Re.Group "tz" regex_number; Re.chr "~"] ]))).
Proof. reflexivity. Qed.

(** A token without any letter, digit or [/] is not matched. *)
Lemma search_dat_None (item : string) :
  has_char Char.isprefixchar item = false ->
  Re.search regex_dat item = None.
Proof.
  rewrite regex_dat_shape.
  induction item as [|c s IH]; intros H.
  - cbn [Re.search]. unfold Re.match_.
    rewrite (exec_opt_plus_None Char.isprefixchar) by exact H. reflexivity.
  - cbn [Re.search]. unfold Re.match_ at 1.
    rewrite (exec_opt_plus_None Char.isprefixchar) by exact H.
    apply IH, (has_char_tail _ _ _ H).
Qed.

(** A chain of optional groups never fails when what follows it never
    does. *)
Lemma exec_optional_chain {R} (rs : list Re.t)
    (k : string -> Re.captures -> option R) :
  (forall s g, is_Some (k s g)) ->
  forall s g, is_Some (Re.exec (Re.cat (map Re.Opt rs)) s g k).
Proof.
  intros Hk. induction rs as [|r rs IH]; intros s g; simpl; [apply Hk|].
  match goal with |- is_Some (match ?a with _ => _ end) => destruct a end;
    [eauto | apply IH].
Qed.

Lemma plus_head_Some {R} (p : ascii -> bool) (c : ascii) (s : string)
    (k : string -> option R) :
  p c = true -> (forall s', is_Some (k s')) ->
  is_Some (Re.plus p (String c s) k).
Proof.
  intros Hc Hk. simpl. rewrite Hc.
  destruct (Re.plus p s k); [eauto | apply Hk].
Qed.

(** At a letter, a digit or a [/], [regex_dat] matches. *)
Lemma match_dat_Some (c : ascii) (s : string) :
  Char.isprefixchar c = true ->
  is_Some (Re.match_ regex_dat (String c s)).
Proof.
  intros Hc. unfold Re.match_. rewrite regex_dat_shape.
  cbn [Re.exec].
  match goal with |- is_Some (match ?a with _ => _ end) => destruct a end;
    [eauto|].
  apply plus_head_Some; [exact Hc|].
  intros s'. apply exec_optional_chain. eauto.
Qed.

(** A token is matched by the override grammar exactly when it has a
    letter, a digit or a [/]. *)
Lemma search_dat_Some_iff (item : string) :
  is_Some (Re.search regex_dat item) <->
  has_char Char.isprefixchar item = true.
Proof.
  split.
  - intros [m Hm].
    destruct (has_char Char.isprefixchar item) eqn:E; [reflexivity|].
    rewrite (search_dat_None _ E) in Hm. discriminate.
  - induction item as [|c s IH]; [discriminate|].
    unfold has_char; simpl. intros H. cbn [Re.search].
    destruct (Re.match_ regex_dat (String c s)) eqn:E; [eauto|].
    apply orb_true_iff in H as [Hc|Hs]; [|exact (IH Hs)].
    destruct (match_dat_Some c s Hc) as [m Hm]. congruence.
Qed.

(** ** [import_dat] as the caller sees it *)

Lemma import_dat_version (text : string) (self : BigCty) :
  _version (snd (import_dat text self)) = VStr (find_version text).
Proof.
  unfold import_dat.
  destruct (scan (Str.readlines text) ∅ EmptyString); reflexivity.
Qed.

Lemma import_dat_raise (text : string) (self : BigCty) (e : exn) :
  scan (Str.readlines text) ∅ EmptyString = Raise e ->
  import_dat text self
  = (Raise e, {| _data := _data self; _version := VStr (find_version text) |}).
Proof. unfold import_dat. intros ->. reflexivity. Qed.

Lemma import_dat_ok (text : string) (self : BigCty)
    (cty_dict : gmap string record) :
  scan (Str.readlines text) ∅ EmptyString = Ok cty_dict ->
  import_dat text self
  = (Ok tt, {| _data := VDict <$> cty_dict;
               _version := VStr (find_version text) |}).
Proof. unfold import_dat. intros ->. reflexivity. Qed.

(** ** The invariant of the scan *)

Lemma well_formed_empty : well_formed ∅.
Proof. intros key r H. rewrite lookup_empty in H. discriminate. Qed.

Lemma well_formed_insert (cty_dict : gmap string record) (key p : string)
    (r : record) :
  well_formed cty_dict ->
  r !! "primary_pfx" = Some (VStr p) ->
  r !! "len" = Some (VInt (Z.of_nat (String.length p))) ->
  is_Some (<[key := r]> cty_dict !! p) ->
  well_formed (<[key := r]> cty_dict).
Proof.
  intros Hwf Hp Hl Hin k r' Hk.
  destruct (decide (key = k)) as [->|Hne].
  - rewrite lookup_insert_eq in Hk. inversion Hk; subst. eauto.
  - rewrite lookup_insert_ne in Hk by exact Hne.
    destruct (Hwf _ _ Hk) as (q & Hq & Hql & Hqin).
    exists q. split; [exact Hq|]. split; [exact Hql|].
    rewrite lookup_insert_is_Some'. auto.
Qed.

Lemma header_well_formed (line : string) (cty_dict d' : gmap string record)
    (last : string) :
  well_formed cty_dict ->
  header line cty_dict = Ok (d', last) ->
  well_formed d' /\ is_Some (d' !! last).
Proof.
  intros Hwf H.
  apply header_inv in H as (e & cq & itu & co & lat & long & tz & ->).
  split; [|rewrite lookup_insert_eq; eauto].
  apply (well_formed_insert _ _ last); [exact Hwf|reflexivity|reflexivity|].
  rewrite lookup_insert_eq. eauto.
Qed.

Lemma override_well_formed (item last : string)
    (cty_dict d' : gmap string record) :
  well_formed cty_dict ->
  override item last cty_dict = Ok d' ->
  well_formed d' /\ (is_Some (cty_dict !! last) -> is_Some (d' !! last)).
Proof.
  intros Hwf H.
  apply override_inv in H
    as [->|(m & prefix & prim & r & _ & Hp & _ & _ & Ha & ->)]; [auto|].
  split; [|intros Hl; rewrite lookup_insert_is_Some'; auto].
  destruct (Hwf _ _ Hp) as (q & Hq & Hql & Hqin).
  apply (well_formed_insert _ _ q); [exact Hwf| | |].
  - rewrite <- Hq. apply (match_groups_frame _ _ _ _ _ Ha). not_a_match_key.
  - rewrite <- Hql. apply (match_groups_frame _ _ _ _ _ Ha). not_a_match_key.
  - rewrite lookup_insert_is_Some'. auto.
Qed.

Lemma overrides_loop_well_formed (overrides : list string) (last : string) :
  forall cty_dict d',
    well_formed cty_dict ->
    overrides_loop overrides last cty_dict = Ok d' ->
    well_formed d'.
Proof.
  induction overrides as [|item rest IH]; intros d d' Hwf H; simpl in H.
  - inversion H; subst. exact Hwf.
  - apply bind_Ok in H as (d1 & H1 & H).
    apply (IH d1); [|exact H].
    exact (proj1 (override_well_formed _ _ _ _ Hwf H1)).
Qed.

(** Every record of the mapping a scan returns names, as its primary
    prefix, a key of that mapping, and carries the length of that
    prefix. *)
Lemma scan_well_formed (lines : list string) :
  forall cty_dict last d',
    well_formed cty_dict ->
    scan lines cty_dict last = Ok d' ->
    well_formed d'.
Proof.
  induction lines as [|raw rest IH]; intros d last d' Hwf H.
  - inversion H; subst. exact Hwf.
  - rewrite scan_cons in H. destruct (clean raw) as [|c s].
    + inversion H; subst. exact Hwf.
    + destruct (Char.isalpha c).
      * apply bind_Ok in H as ([d1 l1] & H1 & H).
        apply (IH d1 l1); [|exact H].
        exact (proj1 (header_well_formed _ _ _ _ Hwf H1)).
      * destruct (Char.isspace c); [|exact (IH _ _ _ Hwf H)].
        apply bind_Ok in H as (d1 & H1 & H).
        apply (IH d1 last); [|exact H].
        exact (overrides_loop_well_formed _ _ _ _ Hwf H1).
Qed.

Lemma import_dat_well_formed (text : string) (self : BigCty)
    (key : string) (r : value) :
  fst (import_dat text self) = Ok tt ->
  _data (snd (import_dat text self)) !! key = Some r ->
  exists p,
    field (snd (import_dat text self)) key "primary_pfx" = Some (VStr p) /\
    field (snd (import_dat text self)) key "len"
    = Some (VInt (Z.of_nat (String.length p))) /\
    is_Some (_data (snd (import_dat text self)) !! p).
Proof.
  unfold import_dat, field.
  destruct (scan (Str.readlines text) ∅ EmptyString) as [d|e] eqn:E;
    [|discriminate].
  simpl. intros _ Hk. rewrite lookup_fmap in Hk |- *.
  destruct (d !! key) as [rec|] eqn:Hrec; [|discriminate].
  destruct (scan_well_formed _ _ _ _ well_formed_empty E _ _ Hrec)
    as (p & Hp & Hl & Hin).
  exists p. simpl. rewrite lookup_fmap. destruct Hin as [x ->]. simpl. eauto.
Qed.

(** ** The tokens [=YYZ] and [YYZ] under any primary *)

Example override_exact_YYZ (last : string) (cty_dict : gmap string record)
    (prim : record) :
  cty_dict !! "=YYZ" = None ->
  cty_dict !! last = Some prim ->
  override "=YYZ" last cty_dict
  = Ok (<["YYZ" := <["exact_match" := VBool true]> prim]> cty_dict).
Proof. unfold override. intros -> ->. reflexivity. Qed.

Example override_plain_YYZ (last : string) (cty_dict : gmap string record)
    (prim : record) :
  cty_dict !! "YYZ" = None ->
  cty_dict !! last = Some prim ->
  override "YYZ" last cty_dict = Ok (<["YYZ" := prim]> cty_dict).
Proof. unfold override. intros -> ->. reflexivity. Qed.

(** ** The version stamp and its rendering *)

(** On a [str] stamp [formatted_version] never raises: it renders the
    date, or returns the sentinel. *)
Lemma formatted_version_str (self : BigCty) (stamp : string) :
  _version self = VStr stamp ->
  formatted_version self
  = Ok (match Date.strptime stamp with
        | Some date => Date.strftime date
        | None => "0000-00-00"
        end).
Proof.
  unfold formatted_version. intros ->.
  destruct (Date.strptime stamp); reflexivity.
Qed.

Example formatted_version_init : formatted_version init = Ok "0000-00-00".
Proof. reflexivity. Qed.

Example version_of_dated_table :
  version (snd (import_dat dated_table init)) = VStr "20230615" /\
  formatted_version (snd (import_dat dated_table init)) = Ok "2023-06-15".
Proof. split; reflexivity. Qed.

Example version_of_sample_table :
  version (snd (import_dat sample_table init)) = VStr "" /\
  formatted_version (snd (import_dat sample_table init)) = Ok "0000-00-00".
Proof. split; reflexivity. Qed.

(** A stamp of eight digits that name no day is rendered as the
    sentinel. *)
Example formatted_version_no_such_day :
  formatted_version {| _data := ∅; _version := VStr "20230230" |}
  = Ok "0000-00-00".
Proof. reflexivity. Qed.

(** A stamp whose year is below 1000 is rendered with the year as [%Y]
    writes it, without leading zeros. *)
Example formatted_version_early_year :
  formatted_version {| _data := ∅; _version := VStr "01230615" |}
  = Ok "123-06-15".
Proof. reflexivity. Qed.

(** * The claims *)

(** C1.  First definition wins (fails on the code): with the tokens
    [XXA(3)] and [XXA(4)] under one entity, the record kept under [XXA] is
    the one of the second token, zone 4, not the one of the first. *)
Theorem later_token_overwrites :
  fst (import_dat twice_table init) = Ok tt /\
  field (snd (import_dat twice_table init)) "XXA" "cq" = Some (VInt 4).
Proof. split; vm_compute; reflexivity. Qed.

(** C2, counterexample.  The import of a table with a malformed header
    fails, and the version stamp the caller sees has changed. *)
Lemma failed_import_changes_version :
  fst (import_dat broken_table init) = Raise IndexError /\
  _version (snd (import_dat broken_table init)) <> _version init.
Proof. split; vm_compute; [reflexivity | discriminate]. Qed.

(** C2, amended.  Whatever the outcome of [import_dat], the version stamp
    is the one found in the new text.  When the import raises, the prefix
    mapping is the one the caller had; when it returns, the mapping is the
    one the scan of the new text built, whatever the object held before. *)
Theorem import_dat_visibility (text : string) (self : BigCty) :
  _version (snd (import_dat text self)) = VStr (find_version text) /\
  match fst (import_dat text self) with
  | Raise e =>
      scan (Str.readlines text) ∅ EmptyString = Raise e /\
      _data (snd (import_dat text self)) = _data self
  | Ok _ =>
      (exists cty_dict,
          scan (Str.readlines text) ∅ EmptyString = Ok cty_dict /\
          _data (snd (import_dat text self)) = VDict <$> cty_dict) /\
      forall other, snd (import_dat text other) = snd (import_dat text self)
  end.
Proof.
  split; [apply import_dat_version|].
  destruct (scan (Str.readlines text) ∅ EmptyString) as [d|e] eqn:E.
  - rewrite (import_dat_ok _ _ _ E). simpl. split; [eauto|].
    intros other. rewrite (import_dat_ok _ _ _ E). reflexivity.
  - rewrite (import_dat_raise _ _ _ E). simpl. auto.
Qed.

(** C3, counterexample.  A table that starts with the line [#!] is
    imported without any error, and the header after that line is read. *)
Lemma unclassified_line_no_error :
  line_kind ("#!" +:+ nl) = Other /\
  fst (import_dat comment_table init) = Ok tt /\
  field (snd (import_dat comment_table init)) "XX" "entity"
  = Some (VStr "Test").
Proof. repeat split; vm_compute; reflexivity. Qed.

(** C3, amended.  A line whose first character, once the line is cleaned,
    is neither a letter nor whitespace is passed over: the scan goes on
    with the next line, with the same mapping and the same current
    primary. *)
Theorem unclassified_line_skipped (raw : string) (c : ascii) (s : string)
    (rest : list string) (cty_dict : gmap string record) (last : string) :
  clean raw = String c s ->
  Char.isalpha c = false ->
  Char.isspace c = false ->
  scan (raw :: rest) cty_dict last = scan rest cty_dict last.
Proof.
  intros Hc Ha Hs. apply scan_other.
  unfold line_kind. rewrite Hc, Ha, Hs. reflexivity.
Qed.

Lemma unclassified_line_skipped_witness :
  (clean ("#!" +:+ nl) = String "#" ("!" +:+ nl) /\
   Char.isalpha "#" = false /\ Char.isspace "#" = false) /\
  scan ["#!" +:+ nl; sample_header +:+ nl] ∅ EmptyString
  = scan [sample_header +:+ nl] ∅ EmptyString.
Proof.
  split; [repeat split; reflexivity|].
  apply (unclassified_line_skipped ("#!" +:+ nl) "#" ("!" +:+ nl));
    reflexivity.
Defined.

(** C4, counterexample.  In the override example the record of [XXA] does
    not have zone 3. *)
Lemma plain_token_keeps_cq :
  field (snd (import_dat sample_table init)) "XXA" "cq" <> Some (VInt 3).
Proof. vm_compute. discriminate. Qed.

(** C4, amended.  In the override example [XXB] has [cq] 3 and [XXA]
    keeps the [cq] 1 of the header; both keep [itu] 2, the continent
    ["NA"], [lat] 10.0, [tz] 5.0, the primary prefix ["XX"] and [len] 2. *)
Theorem override_example :
  let self := snd (import_dat sample_table init) in
  fst (import_dat sample_table init) = Ok tt /\
  field self "XXA" "cq" = Some (VInt 1) /\
  field self "XXB" "cq" = Some (VInt 3) /\
  Forall (fun key =>
            field self key "itu" = Some (VInt 2) /\
            field self key "continent" = Some (VStr "NA") /\
            field self key "lat" = Some (VFloat (FNum 10)) /\
            field self key "tz" = Some (VFloat (FNum 5)) /\
            field self key "primary_pfx" = Some (VStr "XX") /\
            field self key "len" = Some (VInt 2))
         ["XXA"; "XXB"].
Proof.
  cbv zeta. repeat split; try reflexivity.
  repeat constructor; reflexivity.
Qed.

(** C5, counterexample.  The token [!!] does not match the override
    grammar; on a continuation line that precedes every header line it is
    not dropped: the import raises [KeyError]. *)
Lemma unmatched_token_before_header_raises :
  Re.search regex_dat "!!" = None /\
  fst (import_dat orphan_table init) = Raise KeyError.
Proof. split; vm_compute; reflexivity. Qed.

(** C5, amended.  While the current primary prefix has a record, an
    override token the override grammar does not match is dropped: the
    mapping stays as it is, nothing is raised, and the loop goes on with
    the next token. *)
Theorem unmatched_token_dropped (item last : string)
    (cty_dict : gmap string record) (rest : list string) :
  is_Some (cty_dict !! last) ->
  Re.search regex_dat item = None ->
  override item last cty_dict = Ok cty_dict /\
  overrides_loop (item :: rest) last cty_dict
  = overrides_loop rest last cty_dict.
Proof.
  intros [prim Hprim] Hm.
  assert (H : override item last cty_dict = Ok cty_dict).
  { unfold override. destruct (cty_dict !! item); [reflexivity|].
    rewrite Hprim, Hm. reflexivity. }
  split; [exact H|]. simpl. rewrite H. reflexivity.
Qed.

Lemma unmatched_token_dropped_witness :
  (is_Some (sample_dict !! "XX") /\ Re.search regex_dat "!!" = None) /\
  override "!!" "XX" sample_dict = Ok sample_dict /\
  overrides_loop ["!!"; "XXA"] "XX" sample_dict
  = overrides_loop ["XXA"] "XX" sample_dict.
Proof.
  assert (Hl : is_Some (sample_dict !! "XX"))
    by (exists sample_primary; reflexivity).
  assert (Hm : Re.search regex_dat "!!" = None) by reflexivity.
  split; [split; assumption|].
  exact (unmatched_token_dropped "!!" "XX" sample_dict ["XXA"] Hl Hm).
Defined.

(** C6.  The sentinel for an absent stamp (fails on the code): after
    [load] of a document without a ["version"] field the stamp is [None],
    and [formatted_version] raises [TypeError] instead of returning
    ["0000-00-00"]. *)
Theorem formatted_version_after_load_without_version :
  _version (snd (load (VDict ∅) init)) = VNone /\
  formatted_version (snd (load (VDict ∅) init)) = Raise TypeError.
Proof. split; reflexivity. Qed.

(** C7, counterexample.  The dataset read from a table whose entity has the
    primary prefix ["version"] is not what [load] gets back from its
    [dump]: the record under that key is gone. *)
Lemma dump_load_loses_version_key :
  let D := snd (import_dat version_table init) in
  fst (import_dat version_table init) = Ok tt /\
  is_Some (_data D !! "version") /\
  _data (snd (load (dump D) init)) !! "version" = None /\
  snd (load (dump D) init) <> D.
Proof.
  cbv zeta. split; [vm_compute; reflexivity|].
  split; [vm_compute; eauto|].
  split; [vm_compute; reflexivity|].
  intros H. apply (f_equal (fun s => _data s !! "version")) in H.
  vm_compute in H. discriminate.
Qed.

(** C7, amended.  For every dataset with no prefix key ["version"],
    loading what [dump] wrote gives the dataset back: the same keys, the
    same records, the same version stamp, whatever the loading object held
    before. *)
Theorem load_dump (D self : BigCty) :
  _data D !! "version" = None ->
  load (dump D) self = (Ok tt, D).
Proof.
  intros H. destruct D as [data ver]. simpl in *.
  rewrite lookup_insert_eq, delete_insert_id by exact H. reflexivity.
Qed.

Lemma load_dump_witness :
  _data (snd (import_dat sample_table init)) !! "version" = None /\
  load (dump (snd (import_dat sample_table init))) init
  = (Ok tt, snd (import_dat sample_table init)).
Proof.
  assert (H : _data (snd (import_dat sample_table init)) !! "version" = None)
    by reflexivity.
  split; [exact H|].
  exact (load_dump (snd (import_dat sample_table init)) init H).
Defined.

(** C8.  A header line stores its record under the prefix it defines,
    with [primary_pfx] that prefix and [len] its length.  An override
    token either leaves the mapping as it is or stores one record, whose
    [primary_pfx] and [len] are those of the record of the current primary
    it was copied from; the only keys of the copy it may have assigned are
    those of the match groups and [exact_match]. *)
Theorem primary_pfx_and_len_kept
    (line : string) (d0 d1 : gmap string record) (key : string)
    (item last : string) (d d' : gmap string record) :
  header line d0 = Ok (d1, key) ->
  override item last d = Ok d' ->
  (exists r, d1 !! key = Some r /\
             r !! "primary_pfx" = Some (VStr key) /\
             r !! "len" = Some (VInt (Z.of_nat (String.length key)))) /\
  (d' = d \/
   exists prefix prim r,
     d !! last = Some prim /\ d' = <[prefix := r]> d /\
     r !! "primary_pfx" = prim !! "primary_pfx" /\
     r !! "len" = prim !! "len" /\
     forall k, k ∉ "exact_match" :: match_keys -> r !! k = prim !! k).
Proof.
  intros Hh Ho. split.
  - apply header_inv in Hh as (e & cq & itu & co & lat & long & tz & ->).
    eexists. rewrite lookup_insert_eq. split; [reflexivity|].
    split; reflexivity.
  - apply override_inv in Ho as [->|(m & prefix & prim & r & _ & Hp & _ & _ & Ha & ->)];
      [left; reflexivity|].
    right. exists prefix, prim, r.
    split; [exact Hp|]. split; [reflexivity|].
    split; [|split].
    + apply (match_groups_frame _ _ _ _ _ Ha). not_a_match_key.
    + apply (match_groups_frame _ _ _ _ _ Ha). not_a_match_key.
    + intros k Hk. exact (match_groups_frame _ _ _ _ _ Ha Hk).
Qed.

Lemma primary_pfx_and_len_kept_witness :
  (header sample_header ∅ = Ok (sample_dict, "XX") /\
   override "XXB(3)" "XX" sample_dict
   = Ok (<["XXB" := <["cq" := VInt 3]> sample_primary]> sample_dict)) /\
  (exists r, sample_dict !! "XX" = Some r /\
             r !! "primary_pfx" = Some (VStr "XX") /\
             r !! "len" = Some (VInt (Z.of_nat (String.length "XX")))) /\
  (<["XXB" := <["cq" := VInt 3]> sample_primary]> sample_dict = sample_dict \/
   exists prefix prim r,
     sample_dict !! "XX" = Some prim /\
     <["XXB" := <["cq" := VInt 3]> sample_primary]> sample_dict
     = <[prefix := r]> sample_dict /\
     r !! "primary_pfx" = prim !! "primary_pfx" /\
     r !! "len" = prim !! "len" /\
     forall k, k ∉ "exact_match" :: match_keys -> r !! k = prim !! k).
Proof.
  assert (Hh : header sample_header ∅ = Ok (sample_dict, "XX"))
    by reflexivity.
  assert (Ho : override "XXB(3)" "XX" sample_dict
               = Ok (<["XXB" := <["cq" := VInt 3]> sample_primary]> sample_dict))
    by reflexivity.
  split; [split; assumption|].
  exact (primary_pfx_and_len_kept _ _ _ _ _ _ _ _ Hh Ho).
Defined.




(** C10.  When the first line the scan does not pass over is a
    continuation line, [import_dat] raises [KeyError]: the mapping is
    still empty and [last] is still the empty string, so the first token
    of the line is no key and the lookup of the record of [last] fails. *)
Theorem continuation_before_header_raises (text : string) (self : BigCty)
    (skipped : list string) (raw : string) (rest : list string) :
  Str.readlines text = (skipped ++ raw :: rest)%list ->
  Forall (fun l => line_kind l = Other) skipped ->
  line_kind raw = Continuation ->
  import_dat text self
  = (Raise KeyError,
     {| _data := _data self; _version := VStr (find_version text) |}).
Proof.
  intros Hl Hs Hk. apply import_dat_raise.
  rewrite Hl, scan_skip by exact Hs. rewrite scan_cons.
  unfold line_kind in Hk. destruct (clean raw) as [|c s]; [discriminate|].
  destruct (Char.isalpha c); [discriminate|].
  destruct (Char.isspace c); [|discriminate].
  cbv beta iota zeta. rewrite continuation_before_header. reflexivity.
Qed.

Lemma continuation_before_header_raises_witness :
  (Str.readlines orphan_table = ([] ++ orphan_table :: [])%list /\
   Forall (fun l => line_kind l = Other) [] /\
   line_kind orphan_table = Continuation) /\
  import_dat orphan_table init
  = (Raise KeyError,
     {| _data := _data init; _version := VStr (find_version orphan_table) |}).
Proof.
  assert (Hl : Str.readlines orphan_table = ([] ++ orphan_table :: [])%list)
    by reflexivity.
  assert (Hk : line_kind orphan_table = Continuation) by reflexivity.
  split; [repeat split; auto|].
  exact (continuation_before_header_raises orphan_table init [] orphan_table []
           Hl (List.Forall_nil _) Hk).
Defined.

(** * Further properties *)

(** ** The prefix a token is stored under *)

Lemma lstrip_by_length (p : ascii -> bool) (s : string) :
  (String.length (Str.lstrip_by p s) <= String.length s)%nat.
Proof.
  induction s as [|c s IH]; simpl; [lia|].
  destruct (p c); simpl; lia.
Qed.

(** What [p+] reads when it stops at the first character outside [p]. *)
Lemma consumed_run (p : ascii -> bool) (s : string) :
  Str.consumed s (Str.lstrip_by p s) = Str.run p s.
Proof.
  unfold Str.consumed. induction s as [|c s IH]; [reflexivity|].
  simpl Str.lstrip_by. simpl Str.run. destruct (p c).
  - pose proof (lstrip_by_length p s) as Hl.
    replace (String.length (String c s) - String.length (Str.lstrip_by p s))%nat
      with (S (String.length s - String.length (Str.lstrip_by p s)))
      by (simpl; lia).
    simpl. rewrite IH. reflexivity.
  - rewrite Nat.sub_diag. reflexivity.
Qed.

(** When what follows never fails, [p+] reads the longest run. *)
Lemma plus_greedy {R} (p : ascii -> bool) (k : string -> option R) :
  (forall s', is_Some (k s')) ->
  forall c s, p c = true -> Re.plus p (String c s) k = k (Str.lstrip_by p s).
Proof.
  intros Hk c s. revert c. induction s as [|c' s IH]; intros c Hc.
  - simpl. rewrite Hc. reflexivity.
  - cbn [Re.plus]. rewrite Hc. cbn [Str.lstrip_by].
    destruct (p c') eqn:Hc'.
    + specialize (IH c' Hc'). cbn [Re.plus] in IH. rewrite Hc' in IH.
      rewrite IH. destruct (Hk (Str.lstrip_by p s)) as [x ->]. reflexivity.
    + reflexivity.
Qed.

(** A successful [exec] leaves the groups the pattern does not name as
    they were. *)
Lemma exec_names {R} (r : Re.t) :
  forall (s : string) (g : Re.captures)
         (k : string -> Re.captures -> option R) (x : R),
    Re.exec r s g k = Some x ->
    exists s' g', k s' g' = Some x /\
                  forall n, n ∉ Re.names r -> g' !! n = g !! n.
Proof.
  induction r as [|p|r1 IH1 r2 IH2|r1 IH1 r2 IH2|r1 IH1|p|name r1 IH1];
    intros s g k x H; simpl in H.
  - eauto.
  - destruct s as [|c s]; [discriminate|].
    destruct (p c); [eauto|discriminate].
  - apply IH1 in H as (s1 & g1 & H & Hg1).
    apply IH2 in H as (s2 & g2 & H & Hg2).
    exists s2, g2. split; [exact H|]. intros n Hn. simpl in Hn.
    rewrite elem_of_app in Hn. rewrite Hg2, Hg1; tauto.
  - destruct (Re.exec r1 s g k) eqn:E.
    + inversion H; subst. apply IH1 in E as (s1 & g1 & E & Hg1).
      exists s1, g1. split; [exact E|]. intros n Hn. simpl in Hn.
      rewrite elem_of_app in Hn. apply Hg1; tauto.
    + apply IH2 in H as (s2 & g2 & H & Hg2).
      exists s2, g2. split; [exact H|]. intros n Hn. simpl in Hn.
      rewrite elem_of_app in Hn. apply Hg2; tauto.
  - destruct (Re.exec r1 s g k) eqn:E.
    + inversion H; subst. eauto.
    + eauto.
  - apply plus_inv in H as (s' & H). eauto.
  - apply IH1 in H as (s1 & g1 & H & Hg1).
    exists s1, (<[name := Str.consumed s s1]> g1). split; [exact H|].
    intros n Hn. simpl in Hn. rewrite not_elem_of_cons in Hn.
    destruct Hn as [Hne Hn]. rewrite lookup_insert_ne by congruence. auto.
Qed.

Lemma regex_dat_optional :
  regex_dat =
    Re.Seq (Re.Opt (Re.chr "="))
      (Re.Seq (Re.Group "prefix" (Re.Plus Char.isprefixchar))
         (Re.cat (map Re.Opt dat_optional))).
Proof. reflexivity. Qed.

Lemma prefix_not_optional :
  "prefix" ∉ Re.names (Re.cat (map Re.Opt dat_optional)).
Proof.
  cbn. rewrite !not_elem_of_cons.
  repeat split; try discriminate; apply not_elem_of_nil.
Qed.

(** [(?P<prefix>[a-zA-Z0-9/]+)] and the optional groups, at a string that
    starts with a character of the class: the match succeeds and the group
    is the longest run. *)
Lemma match_prefix_run (c : ascii) (s : string) :
  Char.isprefixchar c = true ->
  exists m,
    Re.match_ (Re.Seq (Re.Group "prefix" (Re.Plus Char.isprefixchar))
                 (Re.cat (map Re.Opt dat_optional)))
      (String c s) = Some m /\
    Re.group "prefix" m = Some (String c (Str.run Char.isprefixchar s)).
Proof.
  intros Hc. unfold Re.match_. cbn [Re.exec].
  rewrite plus_greedy; [|intros s'; apply exec_optional_chain; eauto|exact Hc].
  match goal with
  | |- exists m, ?e = Some m /\ _ =>
      assert (Hs : is_Some e) by (apply exec_optional_chain; eauto);
      destruct Hs as [m E]
  end.
  exists m. split; [exact E|].
  apply exec_names in E as (s3 & g3 & E & Hg).
  inversion E; subst. unfold Re.group. simpl.
  rewrite (Hg "prefix" prefix_not_optional), lookup_insert_eq.
  f_equal. pose proof (consumed_run Char.isprefixchar (String c s)) as Hr.
  cbn [Str.lstrip_by Str.run] in Hr. rewrite Hc in Hr. exact Hr.
Qed.

Lemma match_prefix_None (s : string) :
  match s with
  | String c _ => Char.isprefixchar c = false
  | EmptyString => True
  end ->
  Re.match_ (Re.Seq (Re.Group "prefix" (Re.Plus Char.isprefixchar))
               (Re.cat (map Re.Opt dat_optional))) s
  = None.
Proof. intros H. unfold Re.match_. cbn [Re.exec]. apply plus_head_None, H. Qed.

(** [=?r] at the start of [s]: [r] after a [=], or else [r] at [s]. *)
Lemma match_opt_eq (r : Re.t) (s : string) :
  Re.match_ (Re.Seq (Re.Opt (Re.chr "=")) r) s =
    match match s with
          | String c s' => if Char.eqc "=" c then Re.match_ r s' else None
          | EmptyString => None
          end with
    | Some x => Some x
    | None => Re.match_ r s
    end.
Proof. reflexivity. Qed.

Lemma eq_not_prefixchar (c : ascii) :
  Char.eqc "=" c = true -> Char.isprefixchar c = false.
Proof.
  unfold Char.eqc. intros H. apply Ascii.eqb_eq in H. subst. reflexivity.
Qed.

(** The group [prefix] of a match of [regex_dat] is the first maximal run
    of letters, digits and [/] of the token. *)
Lemma search_dat_first_run (item : string) (m : Re.result) :
  Re.search regex_dat item = Some m ->
  Re.group "prefix" m = Some (first_run Char.isprefixchar item).
Proof.
  rewrite regex_dat_optional. unfold first_run.
  induction item as [|c s IH]; cbn [Re.search]; rewrite match_opt_eq.
  - rewrite (match_prefix_None EmptyString) by exact I. discriminate.
  - cbn [Str.lstrip_by Str.run].
    destruct (Char.isprefixchar c) eqn:Hc; cbn [negb].
    + assert (He : Char.eqc "=" c = false).
      { destruct (Char.eqc "=" c) eqn:He; [|reflexivity].
        apply eq_not_prefixchar in He. congruence. }
      rewrite He. destruct (match_prefix_run c s Hc) as (m' & E & Hm).
      rewrite E. intros H; inversion H; subst.
      cbn [Str.run]. rewrite Hc. exact Hm.
    + rewrite (match_prefix_None (String c s)) by exact Hc.
      destruct (Char.eqc "=" c).
      * destruct s as [|c' s'].
        -- rewrite (match_prefix_None EmptyString) by exact I. exact IH.
        -- destruct (Char.isprefixchar c') eqn:Hc'.
           ++ destruct (match_prefix_run c' s' Hc') as (m' & E & Hm).
              rewrite E. intros H; inversion H; subst.
              cbn [Str.lstrip_by]. rewrite Hc'. cbn [negb Str.run].
              rewrite Hc'. exact Hm.
           ++ rewrite (match_prefix_None (String c' s')) by exact Hc'.
              exact IH.
      * exact IH.
Qed.

Lemma first_run_plain (p : ascii -> bool) (s : string) :
  Str.all p s = true -> first_run p s = s.
Proof.
  unfold first_run. destruct s as [|c s]; [reflexivity|].
  cbn [Str.all Str.lstrip_by]. intros H.
  apply andb_true_iff in H as [Hc Hs]. rewrite Hc. cbn [negb Str.run].
  rewrite Hc. f_equal. clear c Hc.
  induction s as [|c s IH]; [reflexivity|].
  cbn [Str.all] in Hs. apply andb_true_iff in Hs as [Hc Hs].
  cbn [Str.run]. rewrite Hc, IH by exact Hs. reflexivity.
Qed.

(** X1.  An override token changes the record of at most one key: the
    first maximal run of letters, digits and [/] of its text, whatever
    else the text holds.  Every other key keeps what it had. *)
Theorem override_touches_first_run (item last : string)
    (cty_dict d' : gmap string record) (k : string) :
  override item last cty_dict = Ok d' ->
  k <> first_run Char.isprefixchar item ->
  d' !! k = cty_dict !! k.
Proof.
  intros H Hk.
  apply override_inv in H
    as [->|(m & prefix & prim & r & _ & _ & Hm & Hp & _ & ->)];
    [reflexivity|].
  rewrite (search_dat_first_run _ _ Hm) in Hp. inversion Hp; subst.
  apply lookup_insert_ne. congruence.
Qed.

Lemma override_touches_first_run_witness :
  (override " =XXB(3)[14]" "XX" sample_dict
   = Ok (<["XXB" := <["cq" := VInt 3]> (<["itu" := VInt 14]> sample_primary)]>
           sample_dict) /\
   "XX" <> first_run Char.isprefixchar " =XXB(3)[14]") /\
  (<["XXB" := <["cq" := VInt 3]> (<["itu" := VInt 14]> sample_primary)]>
     sample_dict) !! "XX" = sample_dict !! "XX".
Proof.
  assert (Ho : override " =XXB(3)[14]" "XX" sample_dict
               = Ok (<["XXB" := <["cq" := VInt 3]>
                                  (<["itu" := VInt 14]> sample_primary)]>
                       sample_dict)) by reflexivity.
  assert (Hk : "XX" <> first_run Char.isprefixchar " =XXB(3)[14]")
    by (vm_compute; discriminate).
  split; [split; assumption|].
  exact (override_touches_first_run _ _ _ _ _ Ho Hk).
Defined.

(** X2.  For a token made of letters, digits and [/] only, the first
    definition wins: such a token never changes a record the mapping
    already has. *)
Theorem plain_token_never_overwrites (item last : string)
    (cty_dict d' : gmap string record) (k : string) (r : record) :
  Str.all Char.isprefixchar item = true ->
  override item last cty_dict = Ok d' ->
  cty_dict !! k = Some r ->
  d' !! k = Some r.
Proof.
  intros Hall H Hk.
  apply override_inv in H
    as [->|(m & prefix & prim & r' & Hi & _ & Hm & Hp & _ & ->)];
    [exact Hk|].
  rewrite (search_dat_first_run _ _ Hm), (first_run_plain _ _ Hall) in Hp.
  inversion Hp; subst. rewrite lookup_insert_ne; [exact Hk|].
  intros ->. congruence.
Qed.

Lemma plain_token_never_overwrites_witness :
  (Str.all Char.isprefixchar "XXA" = true /\
   override "XXA" "XX" sample_dict = Ok (<["XXA" := sample_primary]> sample_dict) /\
   sample_dict !! "XX" = Some sample_primary) /\
  (<["XXA" := sample_primary]> sample_dict) !! "XX" = Some sample_primary.
Proof.
  assert (Ha : Str.all Char.isprefixchar "XXA" = true) by reflexivity.
  assert (Ho : override "XXA" "XX" sample_dict
               = Ok (<["XXA" := sample_primary]> sample_dict)) by reflexivity.
  assert (Hk : sample_dict !! "XX" = Some sample_primary) by reflexivity.
  split; [auto|].
  exact (plain_token_never_overwrites _ _ _ _ _ _ Ha Ho Hk).
Defined.

(** ** What a scan keeps *)

Lemma override_keeps_keys (item last : string)
    (cty_dict d' : gmap string record) (k : string) :
  override item last cty_dict = Ok d' ->
  is_Some (cty_dict !! k) -> is_Some (d' !! k).
Proof.
  intros H Hk.
  apply override_inv in H as [->|(m & prefix & prim & r & _ & _ & _ & _ & _ & ->)];
    [exact Hk|].
  rewrite lookup_insert_is_Some'. auto.
Qed.

Lemma overrides_loop_keeps_keys (overrides : list string) (last k : string) :
  forall cty_dict d',
    overrides_loop overrides last cty_dict = Ok d' ->
    is_Some (cty_dict !! k) -> is_Some (d' !! k).
Proof.
  induction overrides as [|item rest IH]; intros d d' H Hk; simpl in H.
  - inversion H; subst. exact Hk.
  - apply bind_Ok in H as (d1 & H1 & H).
    exact (IH _ _ H (override_keeps_keys _ _ _ _ _ H1 Hk)).
Qed.

Lemma scan_keeps_keys (lines : list string) (cty_dict d' : gmap string record)
    (last k : string) :
  scan lines cty_dict last = Ok d' ->
  is_Some (cty_dict !! k) -> is_Some (d' !! k).
Proof.
  revert cty_dict last. induction lines as [|raw rest IH]; intros d last H Hk.
  - inversion H; subst. exact Hk.
  - rewrite scan_cons in H. destruct (clean raw) as [|c s].
    + inversion H; subst. exact Hk.
    + destruct (Char.isalpha c).
      * apply bind_Ok in H as ([d1 l1] & H1 & H).
        apply (IH d1 l1 H).
        apply header_inv in H1 as (e & cq & itu & co & lat & long & tz & ->).
        rewrite lookup_insert_is_Some'. auto.
      * destruct (Char.isspace c); [|exact (IH _ _ H Hk)].
        apply bind_Ok in H as (d1 & H1 & H).
        exact (IH _ _ H (overrides_loop_keeps_keys _ _ _ _ _ H1 Hk)).
Qed.

(** X3.  A scan never removes a key: a prefix that has a record keeps one
    through every later line. *)
Theorem scan_never_removes_key (lines : list string)
    (cty_dict d' : gmap string record) (last k : string) :
  scan lines cty_dict last = Ok d' ->
  is_Some (cty_dict !! k) -> is_Some (d' !! k).
Proof. exact (scan_keeps_keys lines cty_dict d' last k). Qed.

Lemma scan_never_removes_key_witness :
  (scan ["  XXA,XXB(3);" +:+ nl] sample_dict "XX"
   = Ok (<["XXB" := <["cq" := VInt 3]> sample_primary]>
           (<["XXA" := sample_primary]> sample_dict)) /\
   is_Some (sample_dict !! "XX")) /\
  is_Some ((<["XXB" := <["cq" := VInt 3]> sample_primary]>
              (<["XXA" := sample_primary]> sample_dict)) !! "XX").
Proof.
  assert (Hs : scan ["  XXA,XXB(3);" +:+ nl] sample_dict "XX"
               = Ok (<["XXB" := <["cq" := VInt 3]> sample_primary]>
                       (<["XXA" := sample_primary]> sample_dict)))
    by reflexivity.
  assert (Hk : is_Some (sample_dict !! "XX"))
    by (exists sample_primary; reflexivity).
  split; [split; assumption|].
  exact (scan_never_removes_key _ _ _ _ _ Hs Hk).
Defined.

(** ** The fields of a record *)

Lemma conforms_empty : conforms ∅ ∅.
Proof. intros k. rewrite !lookup_empty. exact I. Qed.

Lemma conforms_insert (s : gmap string ty) (r : record) (k : string)
    (t : ty) (v : value) :
  has_type v t = true -> conforms s r ->
  conforms (<[k := t]> s) (<[k := v]> r).
Proof.
  intros Hv H k'. destruct (decide (k = k')) as [->|Hne].
  - rewrite !lookup_insert_eq. exact Hv.
  - rewrite !lookup_insert_ne by exact Hne. apply H.
Qed.

(** Assigning a value of the type of its key keeps a record in its
    schema. *)
Lemma conforms_assign (s : gmap string ty) (r : record) (k : string)
    (t : ty) (v : value) :
  s !! k = Some t -> has_type v t = true -> conforms s r ->
  conforms s (<[k := v]> r).
Proof.
  intros Hk Hv H k'. destruct (decide (k = k')) as [->|Hne].
  - rewrite Hk, lookup_insert_eq. exact Hv.
  - rewrite lookup_insert_ne by exact Hne. apply H.
Qed.

Lemma header_record_conforms entity cq itu continent lat long tz prefix :
  conforms schema (header_record entity cq itu continent lat long tz prefix).
Proof.
  unfold schema, header_record. rewrite <- !insert_empty.
  repeat (apply conforms_insert; [reflexivity|]). apply conforms_empty.
Qed.

Ltac assign_step H :=
  let g := fresh "g" in
  apply if_group_inv in H as [->|[g H]];
  [ assumption
  | ok_inv H; repeat (eapply conforms_assign; [reflexivity|reflexivity|]);
    assumption ].

Lemma apply_match_conforms (m : Re.result) (item : string)
    (data data' : record) :
  conforms schema data ->
  apply_match m item data = Ok data' ->
  conforms schema data'.
Proof.
  intros H0 H. unfold apply_match in H.
  apply bind_Ok in H as (d1 & S1 & H). apply bind_Ok in H as (d2 & S2 & H).
  apply bind_Ok in H as (d3 & S3 & H). apply bind_Ok in H as (d4 & S4 & H).
  apply bind_Ok in H as (d5 & S5 & H). inversion H; subst; clear H.
  assert (H1 : conforms schema d1) by assign_step S1.
  assert (H2 : conforms schema d2) by assign_step S2.
  assert (H3 : conforms schema d3) by assign_step S3.
  assert (H4 : conforms schema d4) by assign_step S4.
  assert (H5 : conforms schema d5) by assign_step S5.
  destruct (Str.startswith "=" item); [|exact H5].
  eapply conforms_assign; [reflexivity|reflexivity|exact H5].
Qed.

Lemma override_conforms (item last : string)
    (cty_dict d' : gmap string record) :
  map_Forall (fun _ r => conforms schema r) cty_dict ->
  override item last cty_dict = Ok d' ->
  map_Forall (fun _ r => conforms schema r) d'.
Proof.
  intros Hd H.
  apply override_inv in H
    as [->|(m & prefix & prim & r & _ & Hp & _ & _ & Ha & ->)]; [exact Hd|].
  apply map_Forall_insert_2; [|exact Hd].
  exact (apply_match_conforms _ _ _ _ (Hd _ _ Hp) Ha).
Qed.

Lemma overrides_loop_conforms (overrides : list string) (last : string) :
  forall cty_dict d',
    map_Forall (fun _ r => conforms schema r) cty_dict ->
    overrides_loop overrides last cty_dict = Ok d' ->
    map_Forall (fun _ r => conforms schema r) d'.
Proof.
  induction overrides as [|item rest IH]; intros d d' Hd H; simpl in H.
  - inversion H; subst. exact Hd.
  - apply bind_Ok in H as (d1 & H1 & H).
    exact (IH _ _ (override_conforms _ _ _ _ Hd H1) H).
Qed.

Lemma scan_conforms (lines : list string) :
  forall cty_dict last d',
    map_Forall (fun _ r => conforms schema r) cty_dict ->
    scan lines cty_dict last = Ok d' ->
    map_Forall (fun _ r => conforms schema r) d'.
Proof.
  induction lines as [|raw rest IH]; intros d last d' Hd H.
  - inversion H; subst. exact Hd.
  - rewrite scan_cons in H. destruct (clean raw) as [|c s].
    + inversion H; subst. exact Hd.
    + destruct (Char.isalpha c).
      * apply bind_Ok in H as ([d1 l1] & H1 & H).
        apply (IH d1 l1); [|exact H].
        apply header_inv in H1 as (e & cq & itu & co & lat & long & tz & ->).
        apply map_Forall_insert_2; [apply header_record_conforms|exact Hd].
      * destruct (Char.isspace c); [|exact (IH _ _ _ Hd H)].
        apply bind_Ok in H as (d1 & H1 & H).
        exact (IH _ _ _ (overrides_loop_conforms _ _ _ _ Hd H1) H).
Qed.

(** X4.  Every entry of an imported dataset is a [dict] with exactly the
    ten fields of the header branch, each holding a value of the type the
    header branch gives it: no override adds, removes or retypes a
    field. *)
Theorem import_dat_fields (text : string) (self : BigCty)
    (key name : string) :
  fst (import_dat text self) = Ok tt ->
  is_Some (_data (snd (import_dat text self)) !! key) ->
  match schema !! name with
  | Some t =>
      exists x, field (snd (import_dat text self)) key name = Some x /\
                has_type x t = true
  | None => field (snd (import_dat text self)) key name = None
  end.
Proof.
  unfold import_dat, field.
  destruct (scan (Str.readlines text) ∅ EmptyString) as [d|e] eqn:E;
    [|discriminate].
  simpl. intros _ [v Hk]. rewrite lookup_fmap in Hk |- *.
  destruct (d !! key) as [r|] eqn:Hr; [|discriminate]. simpl.
  pose proof (scan_conforms _ _ _ _ (map_Forall_empty _) E _ _ Hr name) as Hc.
  destruct (schema !! name) as [t|], (r !! name) as [x|];
    try contradiction; eauto.
Qed.

Lemma import_dat_fields_witness :
  (fst (import_dat sample_table init) = Ok tt /\
   is_Some (_data (snd (import_dat sample_table init)) !! "XXB")) /\
  match schema !! "tz" with
  | Some t =>
      exists x, field (snd (import_dat sample_table init)) "XXB" "tz" = Some x /\
                has_type x t = true
  | None => field (snd (import_dat sample_table init)) "XXB" "tz" = None
  end.
Proof.
  assert (Ho : fst (import_dat sample_table init) = Ok tt) by reflexivity.
  assert (Hk : is_Some (_data (snd (import_dat sample_table init)) !! "XXB"))
    by (vm_compute; eauto).
  split; [split; assumption|].
  exact (import_dat_fields sample_table init "XXB" "tz" Ho Hk).
Defined.

(** ** The version stamp of a table *)

Lemma consumed_same (s : string) : Str.consumed s s = EmptyString.
Proof. unfold Str.consumed. rewrite Nat.sub_diag. destruct s; reflexivity. Qed.

Lemma consumed_cons (c : ascii) (s rest : string) :
  (String.length rest <= String.length s)%nat ->
  Str.consumed (String c s) rest = String c (Str.consumed s rest).
Proof.
  intros H. unfold Str.consumed.
  replace (String.length (String c s) - String.length rest)%nat
    with (S (String.length s - String.length rest)) by (simpl; lia).
  reflexivity.
Qed.

(** [re.search] returns a match of the pattern at some suffix of the
    subject. *)
Lemma search_suffix (r : Re.t) (s : string) (m : Re.result) :
  Re.search r s = Some m ->
  exists pre s', s = pre +:+ s' /\ Re.match_ r s' = Some m.
Proof.
  induction s as [|c s IH]; cbn [Re.search].
  - destruct (Re.match_ r EmptyString) eqn:E; [|discriminate].
    intros H; inversion H; subst. exists EmptyString, EmptyString. auto.
  - destruct (Re.match_ r (String c s)) eqn:E.
    + intros H; inversion H; subst. exists EmptyString, (String c s). auto.
    + intros H. apply IH in H as (pre & s' & -> & H).
      exists (String c pre), s'. auto.
Qed.

(** A match of [VER(\d{8})] at the start of [s]: [s] is [VER], eight
    digits, and the rest; the group is the eight digits. *)
Lemma match_version (s : string) (m : Re.result) :
  Re.match_ regex_version_entry s = Some m ->
  exists stamp post,
    s = "VER" +:+ stamp +:+ post /\
    String.length stamp = 8%nat /\
    Str.all Char.isdigit stamp = true /\
    Re.group "1" m = Some stamp.
Proof.
  unfold Re.match_, regex_version_entry. simpl.
  destruct s as [|v s]; [discriminate|].
  destruct (Char.eqc "V" v) eqn:Hv; [|discriminate].
  destruct s as [|e s]; [discriminate|].
  destruct (Char.eqc "E" e) eqn:He; [|discriminate].
  destruct s as [|r s]; [discriminate|].
  destruct (Char.eqc "R" r) eqn:Hr; [|discriminate].
  destruct s as [|c1 s]; [discriminate|].
  destruct (Char.isdigit c1) eqn:H1; [|discriminate].
  destruct s as [|c2 s]; [discriminate|].
  destruct (Char.isdigit c2) eqn:H2; [|discriminate].
  destruct s as [|c3 s]; [discriminate|].
  destruct (Char.isdigit c3) eqn:H3; [|discriminate].
  destruct s as [|c4 s]; [discriminate|].
  destruct (Char.isdigit c4) eqn:H4; [|discriminate].
  destruct s as [|c5 s]; [discriminate|].
  destruct (Char.isdigit c5) eqn:H5; [|discriminate].
  destruct s as [|c6 s]; [discriminate|].
  destruct (Char.isdigit c6) eqn:H6; [|discriminate].
  destruct s as [|c7 s]; [discriminate|].
  destruct (Char.isdigit c7) eqn:H7; [|discriminate].
  destruct s as [|c8 s]; [discriminate|].
  destruct (Char.isdigit c8) eqn:H8; [|discriminate].
  intros H; inversion H; subst; clear H.
  apply Ascii.eqb_eq in Hv, He, Hr. subst.
  exists (String c1 (String c2 (String c3 (String c4
            (String c5 (String c6 (String c7 (String c8 EmptyString)))))))), s.
  split; [reflexivity|]. split; [reflexivity|].
  split; [cbn [Str.all]; rewrite H1, H2, H3, H4, H5, H6, H7, H8; reflexivity|].
  unfold Re.group. simpl. rewrite lookup_insert_eq. f_equal.
  rewrite !consumed_cons by (simpl; lia). rewrite consumed_same. reflexivity.
Qed.

(** X5.  The version stamp [import_dat] finds is either empty or eight
    digits that follow the letters [VER] somewhere in the text. *)
Theorem find_version_shape (text : string) :
  find_version text = EmptyString \/
  (String.length (find_version text) = 8%nat /\
   Str.all Char.isdigit (find_version text) = true /\
   exists pre post, text = pre +:+ "VER" +:+ find_version text +:+ post).
Proof.
  unfold find_version.
  destruct (Re.search regex_version_entry text) as [m|] eqn:E; [|auto].
  apply search_suffix in E as (pre & s' & -> & E).
  apply match_version in E as (stamp & post & -> & Hl & Hd & ->).
  right. simpl. eauto 6.
Qed.

(** X6.  Whether [import_dat] returns or raises, [formatted_version] on
    the object afterwards raises nothing: it returns a string, of seven to
    ten characters (the sentinel has ten, a rendered date the year and six
    more). *)
Theorem formatted_version_after_import (text : string) (self : BigCty) :
  exists out,
    formatted_version (snd (import_dat text self)) = Ok out /\
    (7 <= String.length out <= 10)%nat.
Proof.
  rewrite (formatted_version_str _ _ (import_dat_version text self)).
  destruct (Date.strptime (find_version text)) as [[[y m] d]|];
    eexists; (split; [reflexivity|]).
  - unfold Date.strftime, Date.year.
    destruct (y <? 10), (y <? 100), (y <? 1000);
      cbv [Date.two String.append String.length]; lia.
  - simpl. lia.
Qed.

(** ** [load], [dump] and the mapping interface *)

(** X7.  [dump] after [load] writes the document that was read, with the
    field ["version"] added as [null] when the document had none. *)
Theorem dump_load (d : gmap string value) (self : BigCty) :
  dump (snd (load (VDict d) self))
  = VDict (<["version" := default VNone (d !! "version")]> d) /\
  (is_Some (d !! "version") -> dump (snd (load (VDict d) self)) = VDict d).
Proof.
  unfold dump, load. simpl. rewrite insert_delete_eq.
  split; [reflexivity|]. intros [v Hv]. rewrite Hv. simpl.
  rewrite insert_id by exact Hv. reflexivity.
Qed.

(** X8.  After [load] of a JSON object the key ["version"] is not a key
    of the dataset, every other key gives the field of the document, and
    the length counts the fields other than ["version"]. *)
Theorem load_mapping (d : gmap string value) (self : BigCty) (key : string) :
  getitem (snd (load (VDict d) self)) "version" = Raise KeyError /\
  (key <> "version" ->
   getitem (snd (load (VDict d) self)) key = or_raise KeyError (d !! key)) /\
  len (snd (load (VDict d) self))
  = match d !! "version" with
    | Some _ => pred (size d)
    | None => size d
    end.
Proof.
  unfold getitem, len, load. simpl. split; [|split].
  - rewrite lookup_delete_eq. reflexivity.
  - intros Hk. rewrite lookup_delete_ne by congruence. reflexivity.
  - rewrite map_size_delete. destruct (d !! "version"); reflexivity.
Qed.

(** ** Header lines *)

(** X9.  A header line that is accepted stores its record under the
    eighth field, without its leading [*] when it has one; the entity name
    gets the suffix [" (not DXCC)"] exactly in that case. *)
Theorem header_not_dxcc (line : string) (cty_dict d' : gmap string record)
    (key s0 s1 s2 s3 s4 s5 s6 : string) (c : ascii) (tail : string)
    (segs : list string) :
  map Str.strip_ws (Str.split ":" line)
  = s0 :: s1 :: s2 :: s3 :: s4 :: s5 :: s6 :: String c tail :: segs ->
  header line cty_dict = Ok (d', key) ->
  key = (if Char.eqc "*" c then tail else String c tail) /\
  exists r,
    d' !! key = Some r /\
    r !! "entity"
    = Some (VStr (if Char.eqc "*" c then s0 +:+ " (not DXCC)" else s0)) /\
    r !! "primary_pfx" = Some (VStr key).
Proof.
  intros Hs H. unfold header in H. rewrite Hs in H. cbv zeta in H.
  apply bind_Ok in H as (cq & _ & H). apply bind_Ok in H as (itu & _ & H).
  apply bind_Ok in H as (lat & _ & H). apply bind_Ok in H as (long & _ & H).
  apply bind_Ok in H as (tz & _ & H). inversion H; subst; clear H.
  split; [reflexivity|]. eexists. rewrite lookup_insert_eq.
  split; [reflexivity|]. split; reflexivity.
Qed.

Lemma header_not_dxcc_witness :
  (map Str.strip_ws (Str.split ":" "Test:1:2:NA:10.0:20.0:-5.0:*XX:")
   = ["Test"; "1"; "2"; "NA"; "10.0"; "20.0"; "-5.0"; "*XX"; ""] /\
   header "Test:1:2:NA:10.0:20.0:-5.0:*XX:" ∅
   = Ok ({[ "XX" := header_record "Test (not DXCC)" 1 2 "NA"
                      (FNum 10) (FNum 20) (FNum (-5)) "XX" ]}, "XX")) /\
  "XX" = (if Char.eqc "*" "*" then "XX" else "*XX") /\
  exists r,
    ({[ "XX" := header_record "Test (not DXCC)" 1 2 "NA"
                  (FNum 10) (FNum 20) (FNum (-5)) "XX" ]}
       : gmap string record) !! "XX" = Some r /\
    r !! "entity"
    = Some (VStr (if Char.eqc "*" "*" then "Test" +:+ " (not DXCC)" else "Test")) /\
    r !! "primary_pfx" = Some (VStr "XX").
Proof.
  assert (Hs : map Str.strip_ws (Str.split ":" "Test:1:2:NA:10.0:20.0:-5.0:*XX:")
               = ["Test"; "1"; "2"; "NA"; "10.0"; "20.0"; "-5.0"; "*XX"; ""])
    by reflexivity.
  assert (Hh : header "Test:1:2:NA:10.0:20.0:-5.0:*XX:" ∅
               = Ok ({[ "XX" := header_record "Test (not DXCC)" 1 2 "NA"
                                  (FNum 10) (FNum 20) (FNum (-5)) "XX" ]}, "XX"))
    by reflexivity.
  split; [split; assumption|].
  exact (header_not_dxcc _ _ _ _ _ _ _ _ _ _ _ _ _ _ Hs Hh).
Defined.

Lemma split_length (sep : ascii) (s : string) :
  length (Str.split sep s) = S (Str.count sep s).
Proof.
  induction s as [|c s IH]; [reflexivity|]. simpl.
  destruct (Char.eqc sep c); simpl; [lia|].
  destruct (Str.split sep s); simpl in *; lia.
Qed.

Lemma header_too_few_fields (line : string) (cty_dict : gmap string record) :
  (Str.count ":" line < 7)%nat ->
  header line cty_dict = Raise IndexError.
Proof.
  intros H. unfold header.
  assert (Hl : (length (map Str.strip_ws (Str.split ":" line)) < 8)%nat)
    by (rewrite length_map, split_length; lia).
  destruct (map Str.strip_ws (Str.split ":" line))
    as [|s0 [|s1 [|s2 [|s3 [|s4 [|s5 [|s6 [|s7 segs]]]]]]]];
    try reflexivity.
  simpl in Hl. lia.
Qed.

(** X10.  A line that starts with a letter and has, once cleaned, fewer
    than seven colons stops the scan with [IndexError], whatever was read
    before and whatever follows. *)
Theorem scan_short_header (raw : string) (rest : list string)
    (cty_dict : gmap string record) (last : string) :
  line_kind raw = Header ->
  (Str.count ":" (clean raw) < 7)%nat ->
  scan (raw :: rest) cty_dict last = Raise IndexError.
Proof.
  unfold line_kind. rewrite scan_cons.
  destruct (clean raw) as [|c s]; [discriminate|]. cbv zeta.
  destruct (Char.isalpha c); intros Hk Hc.
  - rewrite header_too_few_fields by exact Hc. reflexivity.
  - destruct (Char.isspace c); discriminate.
Qed.

Lemma scan_short_header_witness :
  (line_kind ("Bad:VER20230615" +:+ nl) = Header /\
   (Str.count ":" (clean ("Bad:VER20230615" +:+ nl)) < 7)%nat) /\
  scan ["Bad:VER20230615" +:+ nl; sample_header +:+ nl] sample_dict "XX"
  = Raise IndexError.
Proof.
  assert (Hk : line_kind ("Bad:VER20230615" +:+ nl) = Header) by reflexivity.
  assert (Hc : (Str.count ":" (clean ("Bad:VER20230615" +:+ nl)) < 7)%nat)
    by (vm_compute; lia).
  split; [split; assumption|].
  exact (scan_short_header _ [sample_header +:+ nl] sample_dict "XX" Hk Hc).
Defined.

(** ** Blank lines *)

Lemma lstrip_by_all (p : ascii -> bool) (s : string) :
  Str.all p s = true -> Str.lstrip_by p s = EmptyString.
Proof.
  induction s as [|c s IH]; [reflexivity|]. cbn [Str.all Str.lstrip_by].
  intros H. apply andb_true_iff in H as [-> Hs]. auto.
Qed.



(** ** The keys override tokens add *)

Lemma run_all (p : ascii -> bool) (s : string) :
  Str.all p (Str.run p s) = true.
Proof.
  induction s as [|c s IH]; [reflexivity|]. cbn [Str.run].
  destruct (p c) eqn:Hc; [|reflexivity]. cbn [Str.all]. rewrite Hc. exact IH.
Qed.

Lemma first_run_nonempty (p : ascii -> bool) (s : string) :
  has_char p s = true -> first_run p s <> EmptyString.
Proof.
  unfold has_char, first_run. induction s as [|c s IH]; [discriminate|].
  simpl. destruct (p c) eqn:Hc; simpl.
  - intros _. rewrite Hc. discriminate.
  - exact IH.
Qed.

(** X12.  A key an override token adds to the mapping is a non-empty
    string of letters, digits and [/]. *)
Theorem override_new_key (item last : string)
    (cty_dict d' : gmap string record) (k : string) :
  override item last cty_dict = Ok d' ->
  cty_dict !! k = None ->
  is_Some (d' !! k) ->
  k <> EmptyString /\ Str.all Char.isprefixchar k = true.
Proof.
  intros H Hk Hk'.
  apply override_inv in H
    as [->|(m & prefix & prim & r & _ & _ & Hm & Hp & _ & ->)].
  - rewrite Hk in Hk'. destruct Hk' as [x Hx]. discriminate.
  - rewrite (search_dat_first_run _ _ Hm) in Hp. inversion Hp; subst.
    destruct (decide (first_run Char.isprefixchar item = k)) as [<-|Hne].
    + split; [|apply run_all].
      apply first_run_nonempty, search_dat_Some_iff. eauto.
    + rewrite lookup_insert_ne, Hk in Hk' by exact Hne.
      destruct Hk' as [x Hx]. discriminate.
Qed.

Lemma override_new_key_witness :
  (override " =XXB(3)[14]" "XX" sample_dict
   = Ok (<["XXB" := <["cq" := VInt 3]> (<["itu" := VInt 14]> sample_primary)]>
           sample_dict) /\
   sample_dict !! "XXB" = None /\
   is_Some ((<["XXB" := <["cq" := VInt 3]> (<["itu" := VInt 14]> sample_primary)]>
               sample_dict) !! "XXB")) /\
  "XXB" <> EmptyString /\ Str.all Char.isprefixchar "XXB" = true.
Proof.
  assert (Ho : override " =XXB(3)[14]" "XX" sample_dict
               = Ok (<["XXB" := <["cq" := VInt 3]>
                                  (<["itu" := VInt 14]> sample_primary)]>
                       sample_dict)) by reflexivity.
  assert (Hk : sample_dict !! "XXB" = None) by reflexivity.
  assert (Hk' : is_Some ((<["XXB" := <["cq" := VInt 3]>
                                       (<["itu" := VInt 14]> sample_primary)]>
                            sample_dict) !! "XXB"))
    by (rewrite lookup_insert_eq; eauto).
  split; [auto|].
  exact (override_new_key _ _ _ _ _ Ho Hk Hk').
Defined.

(** ** Header prefixes as keys *)

Lemma scan_app (pre lines : list string) :
  forall (cty_dict : gmap string record) (last : string) d',
    Forall (fun l => line_kind l <> Blank) pre ->
    scan (pre ++ lines)%list cty_dict last = Ok d' ->
    exists d0 l0, scan lines d0 l0 = Ok d'.
Proof.
  induction pre as [|raw pre IH]; intros d last d' Hpre H; [eauto|].
  inversion Hpre as [|? ? Hraw Hpre']; subst.
  simpl app in H. rewrite scan_cons in H. unfold line_kind in Hraw.
  destruct (clean raw) as [|c s]; [congruence|].
  destruct (Char.isalpha c).
  - apply bind_Ok in H as ([d1 l1] & _ & H). exact (IH _ _ _ Hpre' H).
  - destruct (Char.isspace c); [|exact (IH _ _ _ Hpre' H)].
    apply bind_Ok in H as (d1 & _ & H). exact (IH _ _ _ Hpre' H).
Qed.

(** X13.  In a scan that returns, every header line read before the scan
    ends was accepted, and the prefix it defines is a key of the mapping
    returned. *)
Theorem header_prefix_is_key (pre : list string) (raw : string)
    (rest : list string) (cty_dict d' : gmap string record) (last : string) :
  scan (pre ++ raw :: rest)%list cty_dict last = Ok d' ->
  Forall (fun l => line_kind l <> Blank) pre ->
  line_kind raw = Header ->
  exists d0 d1 key,
    header (clean raw) d0 = Ok (d1, key) /\ is_Some (d' !! key).
Proof.
  intros H Hpre Hk.
  apply scan_app in H as (d0 & l0 & H); [|exact Hpre].
  rewrite scan_cons in H. unfold line_kind in Hk.
  destruct (clean raw) as [|c s]; [discriminate|]. cbv zeta in H.
  destruct (Char.isalpha c); [|destruct (Char.isspace c); discriminate].
  apply bind_Ok in H as ([d1 key] & Hh & H).
  exists d0, d1, key. split; [exact Hh|].
  apply (scan_keeps_keys _ _ _ _ _ H).
  apply header_inv in Hh as (e & cq & itu & co & lat & long & tz & ->).
  rewrite lookup_insert_eq. eauto.
Qed.

Lemma header_prefix_is_key_witness :
  (scan ["#!" +:+ nl; sample_header +:+ nl; "  XXA,XXB(3);" +:+ nl] ∅ EmptyString
   = Ok (<["XXB" := <["cq" := VInt 3]> sample_primary]>
           (<["XXA" := sample_primary]> sample_dict)) /\
   Forall (fun l => line_kind l <> Blank) ["#!" +:+ nl] /\
   line_kind (sample_header +:+ nl) = Header) /\
  exists d0 d1 key,
    header (clean (sample_header +:+ nl)) d0 = Ok (d1, key) /\
    is_Some ((<["XXB" := <["cq" := VInt 3]> sample_primary]>
                (<["XXA" := sample_primary]> sample_dict)) !! key).
Proof.
  assert (Hs : scan ["#!" +:+ nl; sample_header +:+ nl; "  XXA,XXB(3);" +:+ nl]
                 ∅ EmptyString
               = Ok (<["XXB" := <["cq" := VInt 3]> sample_primary]>
                       (<["XXA" := sample_primary]> sample_dict)))
    by reflexivity.
  assert (Hp : Forall (fun l => line_kind l <> Blank) ["#!" +:+ nl])
    by (repeat constructor; discriminate).
  assert (Hk : line_kind (sample_header +:+ nl) = Header) by reflexivity.
  split; [auto|].
  exact (header_prefix_is_key ["#!" +:+ nl] (sample_header +:+ nl)
           ["  XXA,XXB(3);" +:+ nl] ∅ _ EmptyString Hs Hp Hk).
Defined.

(** ** The tokens the grammar matches *)

(** X14.  The override grammar matches a token exactly when the token has
    a letter, a digit or a [/]: every other token is one the loop passes
    over. *)
Theorem dat_token_matched_iff (item : string) :
  is_Some (Re.search regex_dat item) <->
  has_char Char.isprefixchar item = true.
Proof. exact (search_dat_Some_iff item). Qed.

(** ** The primary prefix of a record *)

(** X15.  After an import that returns, every entry of the dataset names
    as its [primary_pfx] a key of the dataset, and its [len] is the length
    of that primary prefix, not of its own key. *)
Theorem primary_pfx_is_key (text : string) (self : BigCty)
    (key : string) (r : value) :
  fst (import_dat text self) = Ok tt ->
  _data (snd (import_dat text self)) !! key = Some r ->
  exists p,
    field (snd (import_dat text self)) key "primary_pfx" = Some (VStr p) /\
    field (snd (import_dat text self)) key "len"
    = Some (VInt (Z.of_nat (String.length p))) /\
    is_Some (_data (snd (import_dat text self)) !! p).
Proof. exact (import_dat_well_formed text self key r). Qed.

Lemma primary_pfx_is_key_witness :
  (fst (import_dat sample_table init) = Ok tt /\
   _data (snd (import_dat sample_table init)) !! "XXB"
   = Some (VDict (<["cq" := VInt 3]> sample_primary))) /\
  exists p,
    field (snd (import_dat sample_table init)) "XXB" "primary_pfx"
    = Some (VStr p) /\
    field (snd (import_dat sample_table init)) "XXB" "len"
    = Some (VInt (Z.of_nat (String.length p))) /\
    is_Some (_data (snd (import_dat sample_table init)) !! p).
Proof.
  assert (Ho : fst (import_dat sample_table init) = Ok tt) by reflexivity.
  assert (Hk : _data (snd (import_dat sample_table init)) !! "XXB"
               = Some (VDict (<["cq" := VInt 3]> sample_primary)))
    by reflexivity.
  split; [split; assumption|].
  exact (primary_pfx_is_key sample_table init "XXB" _ Ho Hk).
Defined.

(** ** The flag [exact_match] is never cleared *)

(** X16.  No token clears [exact_match]: when the record of the current
    primary has the flag set, the record a token stores has it set,
    whether or not the token text starts with [=]. *)
Theorem exact_match_inherited (item last : string) (d d' : gmap string record)
    (prim : record) (m : Re.result) :
  d !! item = None ->
  d !! last = Some prim ->
  prim !! "exact_match" = Some (VBool true) ->
  Re.search regex_dat item = Some m ->
  override item last d = Ok d' ->
  exists r,
    d' !! first_run Char.isprefixchar item = Some r /\
    r !! "exact_match" = Some (VBool true).
Proof.
  intros Hi Hp He Hm Ho.
  unfold override in Ho. rewrite Hi, Hp, Hm in Ho. simpl in Ho.
  apply bind_Ok in Ho as (r & Ha & Ho).
  apply bind_Ok in Ho as (prefix & Hpre & Ho). apply or_raise_Ok in Hpre.
  rewrite (search_dat_first_run _ _ Hm) in Hpre.
  inversion Hpre; inversion Ho; subst. exists r.
  split; [apply lookup_insert_eq|].
  rewrite (apply_match_exact _ _ _ _ Ha), He.
  destruct (Str.startswith "=" item); reflexivity.
Qed.

Lemma exact_match_inherited_witness :
  (({[ "XX" := <["exact_match" := VBool true]> sample_primary ]}
      : gmap string record) !! "XXA" = None /\
   ({[ "XX" := <["exact_match" := VBool true]> sample_primary ]}
      : gmap string record) !! "XX"
   = Some (<["exact_match" := VBool true]> sample_primary) /\
   (<["exact_match" := VBool true]> sample_primary) !! "exact_match"
   = Some (VBool true) /\
   Re.search regex_dat "XXA"
   = Some {| Re.groups := {[ "prefix" := "XXA" ]}; Re.rest := EmptyString |} /\
   override "XXA" "XX"
     {[ "XX" := <["exact_match" := VBool true]> sample_primary ]}
   = Ok (<["XXA" := <["exact_match" := VBool true]> sample_primary]>
           {[ "XX" := <["exact_match" := VBool true]> sample_primary ]})) /\
  exists r,
    (<["XXA" := <["exact_match" := VBool true]> sample_primary]>
       ({[ "XX" := <["exact_match" := VBool true]> sample_primary ]}
          : gmap string record))
      !! first_run Char.isprefixchar "XXA" = Some r /\
    r !! "exact_match" = Some (VBool true).
Proof.
  assert (Hi : ({[ "XX" := <["exact_match" := VBool true]> sample_primary ]}
                  : gmap string record) !! "XXA" = None) by reflexivity.
  assert (Hp : ({[ "XX" := <["exact_match" := VBool true]> sample_primary ]}
                  : gmap string record) !! "XX"
               = Some (<["exact_match" := VBool true]> sample_primary))
    by reflexivity.
  assert (He : (<["exact_match" := VBool true]> sample_primary) !! "exact_match"
               = Some (VBool true)) by reflexivity.
  assert (Hm : Re.search regex_dat "XXA"
               = Some {| Re.groups := {[ "prefix" := "XXA" ]};
                         Re.rest := EmptyString |}) by reflexivity.
  assert (Ho : override "XXA" "XX"
                 {[ "XX" := <["exact_match" := VBool true]> sample_primary ]}
               = Ok (<["XXA" := <["exact_match" := VBool true]> sample_primary]>
                       {[ "XX" := <["exact_match" := VBool true]> sample_primary ]}))
    by reflexivity.
  split; [auto 6|].
  exact (exact_match_inherited _ _ _ _ _ _ Hi Hp He Hm Ho).
Defined.

(** ** Zone overrides *)

Lemma append_cons (c : ascii) (a b : string) :
  String c a +:+ b = String c (a +:+ b).
Proof. reflexivity. Qed.

Lemma append_nil (b : string) : EmptyString +:+ b = b.
Proof. reflexivity. Qed.

Lemma lstrip_by_app (p : ascii -> bool) (a : string) (c : ascii) (b : string) :
  Str.all p a = true -> p c = false ->
  Str.lstrip_by p (a +:+ String c b) = String c b.
Proof.
  intros Ha Hc. induction a as [|x a IH].
  - rewrite append_nil. cbn [Str.lstrip_by]. rewrite Hc. reflexivity.
  - cbn [Str.all] in Ha. apply andb_true_iff in Ha as [Hx Ha].
    rewrite append_cons. cbn [Str.lstrip_by]. rewrite Hx. auto.
Qed.

Lemma length_append (a b : string) :
  String.length (a +:+ b) = (String.length a + String.length b)%nat.
Proof.
  induction a as [|x a IH]; [reflexivity|].
  rewrite append_cons. simpl. rewrite IH. reflexivity.
Qed.

Lemma take_append (a b : string) : Str.take (String.length a) (a +:+ b) = a.
Proof.
  induction a as [|x a IH]; [destruct b; reflexivity|].
  rewrite append_cons. simpl. rewrite IH. reflexivity.
Qed.

Lemma consumed_append (a b : string) : Str.consumed (a +:+ b) b = a.
Proof.
  unfold Str.consumed. rewrite length_append.
  replace (String.length a + String.length b - String.length b)%nat
    with (String.length a) by lia.
  apply take_append.
Qed.

(** [p+] on a run of [p] followed by a character outside [p]: when what
    follows accepts the rest, the whole run is read. *)
Lemma plus_run {R} (p : ascii -> bool) (a : string) (c : ascii) (b : string)
    (k : string -> option R) :
  a <> EmptyString -> Str.all p a = true -> p c = false ->
  is_Some (k (String c b)) ->
  Re.plus p (a +:+ String c b) k = k (String c b).
Proof.
  intros Hne Ha Hc [x Hx]. destruct a as [|y a]; [congruence|]. clear Hne.
  revert y Ha. induction a as [|z a IH]; intros y Ha.
  - cbn [Str.all] in Ha. apply andb_true_iff in Ha as [Hy _].
    rewrite append_cons, append_nil. cbn [Re.plus]. rewrite Hy, Hc. reflexivity.
  - cbn [Str.all] in Ha. apply andb_true_iff in Ha as [Hy Ha].
    rewrite append_cons. cbn [Re.plus]. rewrite Hy.
    rewrite (IH z Ha), Hx. reflexivity.
Qed.

(** A bracketed group [o(?P<name>p+)c] at [o], a run of [p], [c]. *)
Lemma exec_bracket {R} (o c : ascii) (name : string) (p : ascii -> bool)
    (n rest : string) (g : Re.captures)
    (k : string -> Re.captures -> option R) :
  n <> EmptyString -> Str.all p n = true -> p c = false ->
  is_Some (k rest (<[name := n]> g)) ->
  Re.exec (Re.cat [Re.chr o; Re.Group name (Re.Plus p); Re.chr c])
    (String o (n +:+ String c rest)) g k
  = k rest (<[name := n]> g).
Proof.
  intros Hne Hn Hc Hk. unfold Re.cat, Re.chr. cbn [foldr Re.exec].
  assert (Ho : Char.eqc o o = true) by apply Ascii.eqb_refl.
  assert (Hcc : Char.eqc c c = true) by apply Ascii.eqb_refl.
  rewrite Ho, plus_run; try assumption.
  - rewrite Hcc, consumed_append. reflexivity.
  - rewrite Hcc, consumed_append. exact Hk.
Qed.

Lemma isdigit_facts (c : ascii) :
  Char.isdigit c = true ->
  Char.isspace c = false /\ Char.eqc "-" c = false /\ Char.eqc "+" c = false /\
  Char.eqc "=" c = false /\ Char.isprefixchar c = true.
Proof.
  destruct c as [[] [] [] [] [] [] [] []]; vm_compute; intuition congruence.
Qed.

Lemma rstrip_by_none (p : ascii -> bool) (s : string) :
  Str.all (fun c => negb (p c)) s = true -> Str.rstrip_by p s = s.
Proof.
  induction s as [|c s IH]; [reflexivity|]. cbn [Str.all Str.rstrip_by].
  intros H. apply andb_true_iff in H as [Hc Hs]. rewrite (IH Hs).
  apply negb_true_iff in Hc. rewrite Hc. destruct s; reflexivity.
Qed.

Lemma all_impl (p q : ascii -> bool) (s : string) :
  (forall c, p c = true -> q c = true) ->
  Str.all p s = true -> Str.all q s = true.
Proof.
  intros Hpq. induction s as [|c s IH]; [reflexivity|]. cbn [Str.all].
  intros H. apply andb_true_iff in H as [Hc Hs].
  rewrite (Hpq _ Hc), (IH Hs). reflexivity.
Qed.

Lemma digitpart_go_digits (s : string) :
  forall after acc k,
    Str.all Char.isdigit s = true ->
    s <> EmptyString \/ after = true ->
    exists z cnt, Conv.digitpart_go s after acc k = Some (z, cnt).
Proof.
  induction s as [|c s IH]; intros after acc k Hs Hne.
  - destruct Hne as [Hne| ->]; [congruence|]. simpl. eauto.
  - cbn [Str.all] in Hs. apply andb_true_iff in Hs as [Hc Hs].
    cbn [Conv.digitpart_go]. rewrite Hc. apply IH; auto.
Qed.

(** [int] accepts every non-empty string of digits. *)
Lemma int_digits (n : string) :
  n <> EmptyString -> Str.all Char.isdigit n = true ->
  exists z, Conv.int n = Some z.
Proof.
  intros Hne Hn. unfold Conv.int, Str.strip_ws.
  destruct n as [|c n']; [congruence|].
  pose proof Hn as Hc. cbn [Str.all] in Hc.
  apply andb_true_iff in Hc as [Hc _].
  destruct (isdigit_facts c Hc) as (Hsp & Hm & Hp & _ & _).
  cbn [Str.lstrip_by]. rewrite Hsp.
  rewrite rstrip_by_none.
  - cbn [Conv.sign]. rewrite Hm, Hp.
    destruct (digitpart_go_digits (String c n') false 0 O Hn) as (z & cnt & Hz);
      [left; discriminate|].
    unfold Conv.digitpart. rewrite Hz. eauto.
  - apply (all_impl Char.isdigit); [|exact Hn].
    intros x Hx. destruct (isdigit_facts x Hx) as (-> & _). reflexivity.
Qed.

Lemma exec_seq_opt {R} (r rest : Re.t) (s : string) (g : Re.captures)
    (k : string -> Re.captures -> option R) :
  Re.exec (Re.Seq (Re.Opt r) rest) s g k =
    match Re.exec r s g (fun s' g' => Re.exec rest s' g' k) with
    | Some x => Some x
    | None => Re.exec rest s g k
    end.
Proof. reflexivity. Qed.

(** The group [prefix] followed by a pattern that never fails, at a run of
    the class followed by a character outside it. *)
Lemma match_prefix_then (chain : Re.t) (c : ascii) (p' : string)
    (t : ascii) (b : string) :
  Char.isprefixchar c = true -> Str.all Char.isprefixchar p' = true ->
  Char.isprefixchar t = false ->
  (forall s g, is_Some (Re.exec chain s g
                          (fun s' g' => Some {| Re.groups := g'; Re.rest := s' |}))) ->
  Re.match_ (Re.Seq (Re.Group "prefix" (Re.Plus Char.isprefixchar)) chain)
    (String c (p' +:+ String t b))
  = Re.exec chain (String t b) (<["prefix" := String c p']> ∅)
      (fun s' g' => Some {| Re.groups := g'; Re.rest := s' |}).
Proof.
  intros Hc Hp Ht Hk. unfold Re.match_. cbn [Re.exec].
  rewrite plus_greedy; [|intros s'; apply Hk|exact Hc].
  rewrite (lstrip_by_app _ _ _ _ Hp Ht).
  rewrite <- append_cons, consumed_append. reflexivity.
Qed.

(** The match of a token made of a prefix and a zone in parentheses. *)
Lemma search_cq (p n : string) :
  p <> EmptyString -> Str.all Char.isprefixchar p = true ->
  n <> EmptyString -> Str.all Char.isdigit n = true ->
  Re.search regex_dat (p +:+ "(" +:+ n +:+ ")")
  = Some {| Re.groups := <["cq" := n]> (<["prefix" := p]> ∅);
            Re.rest := EmptyString |}.
Proof.
  intros Hp Hpa Hn Hna. destruct p as [|c p']; [congruence|].
  cbn [Str.all] in Hpa. apply andb_true_iff in Hpa as [Hc Hpa].
  change (String c p' +:+ "(" +:+ n +:+ ")")
    with (String c (p' +:+ String "(" (n +:+ String ")" EmptyString))).
  rewrite regex_dat_optional. cbn [Re.search]. rewrite match_opt_eq.
  assert (He : Char.eqc "=" c = false).
  { destruct (Char.eqc "=" c) eqn:He; [|reflexivity].
    apply eq_not_prefixchar in He. congruence. }
  rewrite He.
  rewrite match_prefix_then;
    [|exact Hc|exact Hpa|reflexivity|intros; apply exec_optional_chain; eauto].
  change (Re.cat (map Re.Opt dat_optional))
    with (Re.Seq
            (Re.Opt (Re.cat [Re.chr "("; Re.Group "cq" (Re.Plus Char.isdigit);
                             Re.chr ")"]))
            (Re.cat (map Re.Opt (tl dat_optional)))).
  rewrite exec_seq_opt, exec_bracket; [reflexivity|exact Hn|exact Hna|reflexivity|].
  apply exec_optional_chain. eauto.
Qed.

Lemma search_itu (p n : string) :
  p <> EmptyString -> Str.all Char.isprefixchar p = true ->
  n <> EmptyString -> Str.all Char.isdigit n = true ->
  Re.search regex_dat (p +:+ "[" +:+ n +:+ "]")
  = Some {| Re.groups := <["itu" := n]> (<["prefix" := p]> ∅);
            Re.rest := EmptyString |}.
Proof.
  intros Hp Hpa Hn Hna. destruct p as [|c p']; [congruence|].
  cbn [Str.all] in Hpa. apply andb_true_iff in Hpa as [Hc Hpa].
  change (String c p' +:+ "[" +:+ n +:+ "]")
    with (String c (p' +:+ String "[" (n +:+ String "]" EmptyString))).
  rewrite regex_dat_optional. cbn [Re.search]. rewrite match_opt_eq.
  assert (He : Char.eqc "=" c = false).
  { destruct (Char.eqc "=" c) eqn:He; [|reflexivity].
    apply eq_not_prefixchar in He. congruence. }
  rewrite He.
  rewrite match_prefix_then;
    [|exact Hc|exact Hpa|reflexivity|intros; apply exec_optional_chain; eauto].
  change (Re.cat (map Re.Opt dat_optional))
    with (Re.Seq
            (Re.Opt (Re.cat [Re.chr "("; Re.Group "cq" (Re.Plus Char.isdigit);
                             Re.chr ")"]))
            (Re.Seq
               (Re.Opt (Re.cat [Re.chr "["; Re.Group "itu" (Re.Plus Char.isdigit);
                                Re.chr "]"]))
               (Re.cat (map Re.Opt (tl (tl dat_optional)))))).
  rewrite exec_seq_opt.
  change (Re.exec
            (Re.cat [Re.chr "("; Re.Group "cq" (Re.Plus Char.isdigit); Re.chr ")"])
            (String "[" (n +:+ String "]" EmptyString)) (<["prefix" := String c p']> ∅)
            _) with (@None Re.result).
  rewrite exec_seq_opt, exec_bracket; [reflexivity|exact Hn|exact Hna|reflexivity|].
  apply exec_optional_chain. eauto.
Qed.

Ltac groups_lookup :=
  unfold Re.group; cbn [Re.groups];
  rewrite ?lookup_insert_eq, ?lookup_empty;
  repeat (rewrite lookup_insert_ne by discriminate;
          rewrite ?lookup_insert_eq, ?lookup_empty).

(** X17.  A token made of a prefix of letters, digits and [/] and a zone
    of digits in parentheses stores, under the prefix, the copy of the
    primary record with [cq] set to the number the digits spell, and
    nothing else changed.  (The bound on the digits is the default limit
    of [int] on the length of its argument.) *)
Theorem cq_override (p n last : string) (cty_dict : gmap string record)
    (prim : record) :
  p <> EmptyString -> Str.all Char.isprefixchar p = true ->
  n <> EmptyString -> Str.all Char.isdigit n = true ->
  (String.length n <= 4300)%nat ->
  cty_dict !! (p +:+ "(" +:+ n +:+ ")") = None ->
  cty_dict !! last = Some prim ->
  exists z,
    Conv.int n = Some z /\
    override (p +:+ "(" +:+ n +:+ ")") last cty_dict
    = Ok (<[p := <["cq" := VInt z]> prim]> cty_dict).
Proof.
  intros Hp Hpa Hn Hna _ Hi Hl.
  destruct (int_digits n Hn Hna) as (z & Hz). exists z. split; [exact Hz|].
  unfold override. rewrite Hi, Hl, (search_cq p n Hp Hpa Hn Hna).
  cbn [or_raise mbind res_bind].
  assert (Ha : apply_match
                 {| Re.groups := <["cq" := n]> (<["prefix" := p]> ∅);
                    Re.rest := EmptyString |}
                 (p +:+ "(" +:+ n +:+ ")") prim
               = Ok (<["cq" := VInt z]> prim)).
  { unfold apply_match, if_group. groups_lookup.
    destruct n as [|d n']; [congruence|].
    unfold int. rewrite Hz. cbn [or_raise mbind res_bind].
    destruct p as [|c p']; [congruence|].
    cbn [Str.all] in Hpa. apply andb_true_iff in Hpa as [Hc _].
    rewrite append_cons. cbn [Str.startswith].
    destruct (Char.eqc "=" c) eqn:He; [|reflexivity].
    apply eq_not_prefixchar in He. congruence. }
  rewrite Ha. cbn [mbind res_bind]. groups_lookup. reflexivity.
Qed.

Lemma cq_override_witness :
  ("XXB" <> EmptyString /\ Str.all Char.isprefixchar "XXB" = true /\
   "3" <> EmptyString /\ Str.all Char.isdigit "3" = true /\
   (String.length "3" <= 4300)%nat /\
   sample_dict !! ("XXB" +:+ "(" +:+ "3" +:+ ")") = None /\
   sample_dict !! "XX" = Some sample_primary) /\
  exists z,
    Conv.int "3" = Some z /\
    override ("XXB" +:+ "(" +:+ "3" +:+ ")") "XX" sample_dict
    = Ok (<["XXB" := <["cq" := VInt z]> sample_primary]> sample_dict).
Proof.
  assert (H1 : "XXB" <> EmptyString) by discriminate.
  assert (H2 : Str.all Char.isprefixchar "XXB" = true) by reflexivity.
  assert (H3 : "3" <> EmptyString) by discriminate.
  assert (H4 : Str.all Char.isdigit "3" = true) by reflexivity.
  assert (H5 : (String.length "3" <= 4300)%nat) by (simpl; lia).
  assert (H6 : sample_dict !! ("XXB" +:+ "(" +:+ "3" +:+ ")") = None)
    by reflexivity.
  assert (H7 : sample_dict !! "XX" = Some sample_primary) by reflexivity.
  split; [auto 10|].
  exact (cq_override "XXB" "3" "XX" sample_dict sample_primary
           H1 H2 H3 H4 H5 H6 H7).
Defined.

(** X18.  A token made of a prefix of letters, digits and [/] and a zone
    of digits in square brackets stores, under the prefix, the copy of the
    primary record with [itu] set to the number the digits spell, and
    nothing else changed. *)
Theorem itu_override (p n last : string) (cty_dict : gmap string record)
    (prim : record) :
  p <> EmptyString -> Str.all Char.isprefixchar p = true ->
  n <> EmptyString -> Str.all Char.isdigit n = true ->
  (String.length n <= 4300)%nat ->
  cty_dict !! (p +:+ "[" +:+ n +:+ "]") = None ->
  cty_dict !! last = Some prim ->
  exists z,
    Conv.int n = Some z /\
    override (p +:+ "[" +:+ n +:+ "]") last cty_dict
    = Ok (<[p := <["itu" := VInt z]> prim]> cty_dict).
Proof.
  intros Hp Hpa Hn Hna _ Hi Hl.
  destruct (int_digits n Hn Hna) as (z & Hz). exists z. split; [exact Hz|].
  unfold override. rewrite Hi, Hl, (search_itu p n Hp Hpa Hn Hna).
  cbn [or_raise mbind res_bind].
  assert (Ha : apply_match
                 {| Re.groups := <["itu" := n]> (<["prefix" := p]> ∅);
                    Re.rest := EmptyString |}
                 (p +:+ "[" +:+ n +:+ "]") prim
               = Ok (<["itu" := VInt z]> prim)).
  { unfold apply_match, if_group. groups_lookup.
    destruct n as [|d n']; [congruence|].
    unfold int. rewrite Hz. cbn [or_raise mbind res_bind]. groups_lookup.
    destruct p as [|c p']; [congruence|].
    cbn [Str.all] in Hpa. apply andb_true_iff in Hpa as [Hc _].
    rewrite append_cons. cbn [Str.startswith].
    destruct (Char.eqc "=" c) eqn:He; [|reflexivity].
    apply eq_not_prefixchar in He. congruence. }
  rewrite Ha. cbn [mbind res_bind]. groups_lookup. reflexivity.
Qed.

Lemma itu_override_witness :
  ("XX/A" <> EmptyString /\ Str.all Char.isprefixchar "XX/A" = true /\
   "14" <> EmptyString /\ Str.all Char.isdigit "14" = true /\
   (String.length "14" <= 4300)%nat /\
   sample_dict !! ("XX/A" +:+ "[" +:+ "14" +:+ "]") = None /\
   sample_dict !! "XX" = Some sample_primary) /\
  exists z,
    Conv.int "14" = Some z /\
    override ("XX/A" +:+ "[" +:+ "14" +:+ "]") "XX" sample_dict
    = Ok (<["XX/A" := <["itu" := VInt z]> sample_primary]> sample_dict).
Proof.
  assert (H1 : "XX/A" <> EmptyString) by discriminate.
  assert (H2 : Str.all Char.isprefixchar "XX/A" = true) by reflexivity.
  assert (H3 : "14" <> EmptyString) by discriminate.
  assert (H4 : Str.all Char.isdigit "14" = true) by reflexivity.
  assert (H5 : (String.length "14" <= 4300)%nat) by (simpl; lia).
  assert (H6 : sample_dict !! ("XX/A" +:+ "[" +:+ "14" +:+ "]") = None)
    by reflexivity.
  assert (H7 : sample_dict !! "XX" = Some sample_primary) by reflexivity.
  split; [auto 10|].
  exact (itu_override "XX/A" "14" "XX" sample_dict sample_primary
           H1 H2 H3 H4 H5 H6 H7).
Defined.

(** ** Plain and exact tokens *)

Lemma consumed_all (s : string) : Str.consumed s EmptyString = s.
Proof.
  unfold Str.consumed. simpl. rewrite Nat.sub_0_r.
  induction s as [|c s IH]; [reflexivity|]. simpl. rewrite IH. reflexivity.
Qed.

(** [regex_dat] without its [=?], on a string of the class only: the group
    [prefix] is the whole string and no other group takes part. *)
Lemma match_prefix_only (p : string) :
  p <> EmptyString -> Str.all Char.isprefixchar p = true ->
  Re.match_ (Re.Seq (Re.Group "prefix" (Re.Plus Char.isprefixchar))
               (Re.cat (map Re.Opt dat_optional))) p
  = Some {| Re.groups := {[ "prefix" := p ]}; Re.rest := EmptyString |}.
Proof.
  intros Hp Hpa. destruct p as [|c p']; [congruence|].
  cbn [Str.all] in Hpa. apply andb_true_iff in Hpa as [Hc Hpa].
  unfold Re.match_. cbn [Re.exec].
  rewrite plus_greedy;
    [|intros s'; apply exec_optional_chain; eauto|exact Hc].
  rewrite (lstrip_by_all _ _ Hpa), consumed_all. reflexivity.
Qed.

Lemma startswith_plain (p : string) :
  Str.all Char.isprefixchar p = true -> Str.startswith "=" p = false.
Proof.
  destruct p as [|c p']; [reflexivity|]. cbn [Str.all Str.startswith].
  intros H. apply andb_true_iff in H as [Hc _].
  destruct (Char.eqc "=" c) eqn:He; [|reflexivity].
  apply eq_not_prefixchar in He. congruence.
Qed.

Lemma search_plain (p : string) :
  p <> EmptyString -> Str.all Char.isprefixchar p = true ->
  Re.search regex_dat p
  = Some {| Re.groups := {[ "prefix" := p ]}; Re.rest := EmptyString |}.
Proof.
  intros Hp Hpa. pose proof (match_prefix_only p Hp Hpa) as Hm.
  pose proof (startswith_plain p Hpa) as He.
  destruct p as [|c p']; [congruence|]. cbn [Str.startswith] in He.
  rewrite regex_dat_optional. cbn [Re.search].
  rewrite match_opt_eq, He, Hm. reflexivity.
Qed.

Lemma search_exact (p : string) :
  p <> EmptyString -> Str.all Char.isprefixchar p = true ->
  Re.search regex_dat ("=" +:+ p)
  = Some {| Re.groups := {[ "prefix" := p ]}; Re.rest := EmptyString |}.
Proof.
  intros Hp Hpa. pose proof (match_prefix_only p Hp Hpa) as Hm.
  rewrite regex_dat_optional. change ("=" +:+ p) with (String "=" p).
  cbn [Re.search]. rewrite match_opt_eq.
  change (Char.eqc "=" "=") with true. cbv iota. rewrite Hm. reflexivity.
Qed.

(** X19.  A token made of letters, digits and [/] only, not yet a key,
    stores under itself an unchanged copy of the primary record; the same
    token after a [=] stores that copy with [exact_match] set, under the
    token without the [=]. *)
Theorem alias_override (p last : string) (cty_dict : gmap string record)
    (prim : record) :
  p <> EmptyString -> Str.all Char.isprefixchar p = true ->
  cty_dict !! last = Some prim ->
  (cty_dict !! p = None ->
   override p last cty_dict = Ok (<[p := prim]> cty_dict)) /\
  (cty_dict !! ("=" +:+ p) = None ->
   override ("=" +:+ p) last cty_dict
   = Ok (<[p := <["exact_match" := VBool true]> prim]> cty_dict)).
Proof.
  intros Hp Hpa Hl.
  split; intros Hi; unfold override; rewrite Hi, Hl;
    cbn [or_raise mbind res_bind].
  - rewrite (search_plain p Hp Hpa). unfold apply_match, if_group.
    rewrite (startswith_plain p Hpa). reflexivity.
  - rewrite (search_exact p Hp Hpa). reflexivity.
Qed.

Lemma alias_override_witness :
  ("XX/P" <> EmptyString /\ Str.all Char.isprefixchar "XX/P" = true /\
   sample_dict !! "XX" = Some sample_primary) /\
  (sample_dict !! "XX/P" = None ->
   override "XX/P" "XX" sample_dict = Ok (<["XX/P" := sample_primary]> sample_dict)) /\
  (sample_dict !! ("=" +:+ "XX/P") = None ->
   override ("=" +:+ "XX/P") "XX" sample_dict
   = Ok (<["XX/P" := <["exact_match" := VBool true]> sample_primary]> sample_dict)).
Proof.
  assert (H1 : "XX/P" <> EmptyString) by discriminate.
  assert (H2 : Str.all Char.isprefixchar "XX/P" = true) by reflexivity.
  assert (H3 : sample_dict !! "XX" = Some sample_primary) by reflexivity.
  split; [auto|].
  exact (alias_override "XX/P" "XX" sample_dict sample_primary H1 H2 H3).
Defined.

(** ** Rendering a date stamp *)

Lemma digit_cases (x : Z) :
  exists v, (0 <= v <= 9) /\ x mod 10 = v /\
            Date.digit x = ascii_of_N (Z.to_N v + 48).
Proof.
  exists (x mod 10). split; [|split; reflexivity].
  pose proof (Z.mod_pos_bound x 10). lia.
Qed.

Lemma digit_facts (x : Z) :
  Char.isdigit (Date.digit x) = true /\
  Char.digit_val (Date.digit x) = x mod 10.
Proof.
  destruct (digit_cases x) as (v & Hv & -> & ->).
  assert (H : v = 0 \/ v = 1 \/ v = 2 \/ v = 3 \/ v = 4 \/
              v = 5 \/ v = 6 \/ v = 7 \/ v = 8 \/ v = 9) by lia.
  repeat (destruct H as [->|H]; [split; reflexivity|]).
  subst. split; reflexivity.
Qed.

Lemma int_chars (s : string) (acc : Z) :
  Str.all Char.isdigit s = true ->
  forall k, Conv.digitpart_go s true acc k
            = Some (fold_left (fun a c => 10 * a + Char.digit_val c)
                      (String.list_ascii_of_string s) acc,
                    (k + String.length s)%nat).
Proof.
  revert acc. induction s as [|c s IH]; intros acc Hs k.
  - simpl. rewrite Nat.add_0_r. reflexivity.
  - cbn [Str.all] in Hs. apply andb_true_iff in Hs as [Hc Hs].
    cbn [Conv.digitpart_go]. rewrite Hc, (IH _ Hs). simpl.
    rewrite Nat.add_succ_r. reflexivity.
Qed.

(** [int] on a non-empty string of digits: the number they spell. *)
Lemma int_value (c : ascii) (s : string) :
  Str.all Char.isdigit (String c s) = true ->
  Conv.int (String c s)
  = Some (fold_left (fun a x => 10 * a + Char.digit_val x)
            (String.list_ascii_of_string s) (Char.digit_val c)).
Proof.
  intros Hs. unfold Conv.int, Str.strip_ws.
  pose proof Hs as Hc. cbn [Str.all] in Hc.
  apply andb_true_iff in Hc as [Hc Hs'].
  destruct (isdigit_facts c Hc) as (Hsp & Hm & Hp & _ & _).
  cbn [Str.lstrip_by]. rewrite Hsp, rstrip_by_none.
  - cbn [Conv.sign]. rewrite Hm, Hp. unfold Conv.digitpart.
    cbn [Conv.digitpart_go]. rewrite Hc, (int_chars _ _ Hs'). reflexivity.
  - apply (all_impl Char.isdigit); [|exact Hs].
    intros x Hx. destruct (isdigit_facts x Hx) as (-> & _). reflexivity.
Qed.

Lemma int_two (n : Z) :
  0 <= n <= 99 -> Conv.int (Date.two n) = Some n.
Proof.
  intros Hn. unfold Date.two.
  destruct (digit_facts (n / 10)) as (Ha & Hav).
  destruct (digit_facts n) as (Hb & Hbv).
  rewrite int_value by (cbn [Str.all]; rewrite Ha, Hb; reflexivity).
  cbn [fold_left String.list_ascii_of_string]. rewrite Hav, Hbv. f_equal.
  Z.div_mod_to_equations. lia.
Qed.

Lemma int_year (y : Z) :
  0 <= y <= 9999 ->
  Conv.int (String (Date.digit (y / 100 / 10))
              (String (Date.digit (y / 100))
                 (String (Date.digit (y / 10))
                    (String (Date.digit y) EmptyString))))
  = Some y.
Proof.
  intros Hy.
  destruct (digit_facts (y / 100 / 10)) as (Ha & Hav).
  destruct (digit_facts (y / 100)) as (Hb & Hbv).
  destruct (digit_facts (y / 10)) as (Hc & Hcv).
  destruct (digit_facts y) as (Hd & Hdv).
  rewrite int_value by (cbn [Str.all]; rewrite Ha, Hb, Hc, Hd; reflexivity).
  cbn [fold_left String.list_ascii_of_string].
  rewrite Hav, Hbv, Hcv, Hdv. f_equal. Z.div_mod_to_equations. lia.
Qed.

Lemma format_regex_split :
  Date.format_regex =
    Re.Seq (Re.Group "Y" (Re.cat [Re.digit; Re.digit; Re.digit; Re.digit]))
      month_day_regex.
Proof. reflexivity. Qed.

Lemma exec_year {R} (rest : Re.t) (a b c e : ascii) (s : string)
    (g : Re.captures) (k : string -> Re.captures -> option R) :
  Char.isdigit a = true -> Char.isdigit b = true ->
  Char.isdigit c = true -> Char.isdigit e = true ->
  Re.exec (Re.Seq (Re.Group "Y" (Re.cat [Re.digit; Re.digit; Re.digit; Re.digit]))
             rest)
    (String a (String b (String c (String e s)))) g k
  = Re.exec rest s
      (<["Y" := String a (String b (String c (String e EmptyString)))]> g) k.
Proof.
  intros Ha Hb Hc He. unfold Re.cat, Re.digit. cbn [foldr Re.exec].
  rewrite Ha, Hb, Hc, He.
  rewrite !consumed_cons by (simpl; lia). rewrite consumed_same. reflexivity.
Qed.

Lemma month_day_parse (m d : Z) (g : Re.captures) :
  1 <= m <= 12 -> 1 <= d <= 31 ->
  Re.exec month_day_regex (Date.two m +:+ Date.two d) g
    (fun s' g' => Some {| Re.groups := g'; Re.rest := s' |})
  = Some {| Re.groups := <["d" := Date.two d]> (<["m" := Date.two m]> g);
            Re.rest := EmptyString |}.
Proof.
  intros Hm Hd.
  assert (Hm' : m = 1 \/ m = 2 \/ m = 3 \/ m = 4 \/ m = 5 \/ m = 6 \/
                m = 7 \/ m = 8 \/ m = 9 \/ m = 10 \/ m = 11 \/ m = 12) by lia.
  assert (Hd' : d = 1 \/ d = 2 \/ d = 3 \/ d = 4 \/ d = 5 \/ d = 6 \/
                d = 7 \/ d = 8 \/ d = 9 \/ d = 10 \/ d = 11 \/ d = 12 \/
                d = 13 \/ d = 14 \/ d = 15 \/ d = 16 \/ d = 17 \/ d = 18 \/
                d = 19 \/ d = 20 \/ d = 21 \/ d = 22 \/ d = 23 \/ d = 24 \/
                d = 25 \/ d = 26 \/ d = 27 \/ d = 28 \/ d = 29 \/ d = 30 \/
                d = 31) by lia.
  clear Hm Hd.
  repeat (destruct Hm' as [->|Hm']);
    repeat (destruct Hd' as [->|Hd']); subst; reflexivity.
Qed.

Lemma valid_bounds (y m d : Z) :
  Date.valid y m d = true -> 1 <= y <= 9999 /\ 1 <= m <= 12 /\ 1 <= d <= 31.
Proof.
  unfold Date.valid, Date.days_in_month. intros H.
  repeat (apply andb_true_iff in H as [H ?]).
  destruct (m =? 2), (Date.is_leap y),
    ((m =? 4) || (m =? 6) || (m =? 9) || (m =? 11)); lia.
Qed.

(** [strptime] reads back the date a stamp was written from. *)
Lemma strptime_stamp (y m d : Z) :
  Date.valid y m d = true ->
  Date.strptime (Date.stamp (y, m, d)) = Some (y, m, d).
Proof.
  intros Hv. destruct (valid_bounds y m d Hv) as (Hy & Hm & Hd).
  unfold Date.strptime, Date.stamp, Re.match_.
  unfold Date.two at 1 2. rewrite !append_cons, !append_nil.
  rewrite format_regex_split.
  rewrite exec_year by apply digit_facts.
  rewrite month_day_parse by assumption.
  cbn [Re.rest]. groups_lookup. cbn [mbind option_bind].
  rewrite int_year by lia. rewrite !int_two by lia. rewrite Hv. reflexivity.
Qed.

(** X20.  For every calendar date from the year 1000 on, the stamp
    [YYYYMMDD] of the date is rendered as [YYYY-MM-DD]: the same digits
    with the two dashes, never the sentinel. *)
Theorem formatted_version_of_date (y m d : Z) (data : gmap string value) :
  Date.valid y m d = true ->
  1000 <= y ->
  formatted_version {| _data := data; _version := VStr (Date.stamp (y, m, d)) |}
  = Ok (Date.two (y / 100) +:+ Date.two y +:+ "-" +:+ Date.two m
        +:+ "-" +:+ Date.two d).
Proof.
  intros Hv Hy. unfold formatted_version. cbn [_version].
  rewrite (strptime_stamp y m d Hv). unfold Date.strftime, Date.year.
  destruct (Z.ltb_spec y 10); [lia|].
  destruct (Z.ltb_spec y 100); [lia|].
  destruct (Z.ltb_spec y 1000); [lia|].
  unfold Date.two. reflexivity.
Qed.

Lemma formatted_version_of_date_witness :
  (Date.valid 2024 2 29 = true /\ 1000 <= 2024) /\
  formatted_version {| _data := ∅; _version := VStr (Date.stamp (2024, 2, 29)) |}
  = Ok (Date.two (2024 / 100) +:+ Date.two 2024 +:+ "-" +:+ Date.two 2
        +:+ "-" +:+ Date.two 29).
Proof.
  assert (Hv : Date.valid 2024 2 29 = true) by reflexivity.
  assert (Hy : 1000 <= 2024) by lia.
  split; [split; assumption|].
  exact (formatted_version_of_date 2024 2 29 ∅ Hv Hy).
Defined.

(** ** Text after the prefix *)

(** X21.  Text that follows the prefix of a token and starts none of the
    groups of the grammar is ignored: the token stores, under its prefix,
    an unchanged copy of the primary record, and raises nothing. *)
Theorem trailing_text_ignored (p : string) (t : ascii) (b last : string)
    (cty_dict : gmap string record) (prim : record) :
  p <> EmptyString -> Str.all Char.isprefixchar p = true ->
  Char.isprefixchar t = false ->
  existsb (Char.eqc t) (String.list_ascii_of_string "([<{~") = false ->
  cty_dict !! (p +:+ String t b) = None ->
  cty_dict !! last = Some prim ->
  override (p +:+ String t b) last cty_dict = Ok (<[p := prim]> cty_dict).
Proof.
  intros Hp Hpa Ht Hopen Hi Hl.
  assert (Hs : Re.search regex_dat (p +:+ String t b)
               = Some {| Re.groups := {[ "prefix" := p ]};
                         Re.rest := String t b |}).
  { pose proof (startswith_plain p Hpa) as He.
    destruct p as [|c p']; [congruence|]. cbn [Str.startswith] in He.
    cbn [Str.all] in Hpa. apply andb_true_iff in Hpa as [Hc Hpa].
    rewrite append_cons, regex_dat_optional. cbn [Re.search].
    rewrite match_opt_eq, He.
    rewrite match_prefix_then;
      [|exact Hc|exact Hpa|exact Ht|intros; apply exec_optional_chain; eauto].
    cbn in Hopen. repeat (apply orb_false_iff in Hopen as [? Hopen]).
    unfold dat_optional, Re.cat, Re.chr. cbn [map foldr Re.exec].
    assert (forall a, Char.eqc t a = false -> Char.eqc a t = false) as Hsym.
    { intros a Ha. unfold Char.eqc in *. rewrite Ascii.eqb_sym. exact Ha. }
    rewrite !Hsym by assumption. reflexivity. }
  unfold override. rewrite Hi, Hl, Hs. cbn [or_raise mbind res_bind].
  unfold apply_match, if_group.
  assert (Hst : Str.startswith "=" (p +:+ String t b) = false).
  { pose proof (startswith_plain p Hpa) as He.
    destruct p as [|c p']; [congruence|]. exact He. }
  rewrite Hst. reflexivity.
Qed.

Lemma trailing_text_ignored_witness :
  ("XXB" <> EmptyString /\ Str.all Char.isprefixchar "XXB" = true /\
   Char.isprefixchar " " = false /\
   existsb (Char.eqc " ") (String.list_ascii_of_string "([<{~") = false /\
   sample_dict !! ("XXB" +:+ String " " "(3)") = None /\
   sample_dict !! "XX" = Some sample_primary) /\
  override ("XXB" +:+ String " " "(3)") "XX" sample_dict
  = Ok (<["XXB" := sample_primary]> sample_dict).
Proof.
  assert (H1 : "XXB" <> EmptyString) by discriminate.
  assert (H2 : Str.all Char.isprefixchar "XXB" = true) by reflexivity.
  assert (H3 : Char.isprefixchar " " = false) by reflexivity.
  assert (H4 : existsb (Char.eqc " ") (String.list_ascii_of_string "([<{~")
               = false) by reflexivity.
  assert (H5 : sample_dict !! ("XXB" +:+ String " " "(3)") = None)
    by reflexivity.
  assert (H6 : sample_dict !! "XX" = Some sample_primary) by reflexivity.
  split; [auto 10|].
  exact (trailing_text_ignored "XXB" " " "(3)" "XX" sample_dict sample_primary
           H1 H2 H3 H4 H5 H6).
Defined.

(** ** The entity of the records of a continuation line *)

Lemma overrides_loop_primary (overrides : list string) (key : string)
    (len_key : value) :
  forall d d',
    (exists r0, d !! key = Some r0 /\
                r0 !! "primary_pfx" = Some (VStr key) /\
                r0 !! "len" = Some len_key) ->
    overrides_loop overrides key d = Ok d' ->
    forall k r,
      d' !! k = Some r ->
      d !! k = Some r \/
      (r !! "primary_pfx" = Some (VStr key) /\ r !! "len" = Some len_key).
Proof.
  induction overrides as [|item rest IH]; intros d d' Hinv H k r Hk;
    simpl in H.
  - inversion H; subst. auto.
  - apply bind_Ok in H as (d1 & H1 & H).
    destruct Hinv as (r0 & Hr0 & Hpp & Hlen).
    apply override_inv in H1
      as [->|(m & prefix & prim & data & _ & Hp & _ & _ & Ha & ->)].
    + apply (IH d d'); eauto.
    + assert (Hd : data !! "primary_pfx" = Some (VStr key) /\
                   data !! "len" = Some len_key).
      { rewrite Hp in Hr0. inversion Hr0; subst.
        rewrite !(match_groups_frame _ _ _ _ _ Ha) by not_a_match_key. auto. }
      assert (Hinv1 : exists r1, <[prefix := data]> d !! key = Some r1 /\
                                 r1 !! "primary_pfx" = Some (VStr key) /\
                                 r1 !! "len" = Some len_key).
      { destruct (decide (prefix = key)) as [->|Hne].
        - exists data. rewrite lookup_insert_eq. tauto.
        - exists r0. rewrite lookup_insert_ne by exact Hne. auto. }
      destruct (IH _ _ Hinv1 H k r Hk) as [Hk1|Hgood]; [|auto].
      destruct (decide (prefix = k)) as [->|Hne].
      * rewrite lookup_insert_eq in Hk1. inversion Hk1; subst. auto.
      * rewrite lookup_insert_ne in Hk1 by exact Hne. auto.
Qed.

(** X22.  Every record a continuation line adds or replaces belongs to the
    entity of the header line before it: its [primary_pfx] is the prefix
    that header defined and its [len] the length of that prefix. *)
Theorem continuation_records_primary (hline cline : string)
    (d0 d1 d2 : gmap string record) (key k : string) (r : record) :
  header hline d0 = Ok (d1, key) ->
  continuation cline key d1 = Ok d2 ->
  d2 !! k = Some r ->
  d1 !! k = Some r \/
  (r !! "primary_pfx" = Some (VStr key) /\
   r !! "len" = Some (VInt (Z.of_nat (String.length key)))).
Proof.
  intros Hh Hc Hk. unfold continuation in Hc.
  apply (overrides_loop_primary _ _ _ _ _) with (3 := Hk) (2 := Hc).
  apply header_inv in Hh as (e & cq & itu & co & lat & long & tz & ->).
  eexists. rewrite lookup_insert_eq. split; [reflexivity|].
  split; reflexivity.
Qed.

Lemma continuation_records_primary_witness :
  (header sample_header ∅ = Ok (sample_dict, "XX") /\
   continuation "  XXA,XXB(3);" "XX" sample_dict
   = Ok (<["XXB" := <["cq" := VInt 3]> sample_primary]>
           (<["XXA" := sample_primary]> sample_dict)) /\
   (<["XXB" := <["cq" := VInt 3]> sample_primary]>
      (<["XXA" := sample_primary]> sample_dict)) !! "XXB"
   = Some (<["cq" := VInt 3]> sample_primary)) /\
  (sample_dict !! "XXB" = Some (<["cq" := VInt 3]> sample_primary) \/
   ((<["cq" := VInt 3]> sample_primary) !! "primary_pfx" = Some (VStr "XX") /\
    (<["cq" := VInt 3]> sample_primary) !! "len"
    = Some (VInt (Z.of_nat (String.length "XX"))))).
Proof.
  assert (Hh : header sample_header ∅ = Ok (sample_dict, "XX")) by reflexivity.
  assert (Hc : continuation "  XXA,XXB(3);" "XX" sample_dict
               = Ok (<["XXB" := <["cq" := VInt 3]> sample_primary]>
                       (<["XXA" := sample_primary]> sample_dict)))
    by reflexivity.
  assert (Hk : (<["XXB" := <["cq" := VInt 3]> sample_primary]>
                  (<["XXA" := sample_primary]> sample_dict)) !! "XXB"
               = Some (<["cq" := VInt 3]> sample_primary)) by reflexivity.
  split; [auto|].
  exact (continuation_records_primary _ _ _ _ _ _ _ _ Hh Hc Hk).
Defined.
